(** * A shallow embedding of craft_text_detector/craft_utils.py

    Heatmaps are 2D arrays of rationals (the float32 values of the
    source, taken exactly); score maps, label images and masks are 2D
    arrays of integers.  numpy errors raised on the paths below (shape
    broadcasting, boolean indexing) are made explicit with a small error
    monad.  The numerical primitives that the source takes from numpy,
    math and OpenCV and whose exact values do not decide the properties
    below (the floating square root, atan2/cos/sin, cv2.minAreaRect +
    cv2.boxPoints and cv2.line) are parameters of the development. *)

From Stdlib Require Import ZArith QArith Qround Qabs Qfield List Permutation Bool Lia.
From Stdlib Require Strings.String Strings.Ascii.
Import ListNotations.
Import (notations) Strings.String.
Import (notations) Strings.Ascii.

Open Scope Z_scope.

(** ** numpy-like 2D arrays *)

Definition arr (A : Type) := list (list A).

Definition nrows {A} (a : arr A) : nat := length a.
Definition ncols {A} (a : arr A) : nat :=
  match a with [] => 0%nat | r :: _ => length r end.
Definition shape {A} (a : arr A) : nat * nat := (nrows a, ncols a).

Definition shape_eqb (s t : nat * nat) : bool :=
  Nat.eqb (fst s) (fst t) && Nat.eqb (snd s) (snd t).

(** [a[y, x]] with a default outside the array *)
Definition at2 {A} (d : A) (a : arr A) (y x : nat) : A := nth x (nth y a []) d.

Definition tabulate {A} (h w : nat) (f : nat -> nat -> A) : arr A :=
  map (fun y => map (fun x => f y x) (seq 0 w)) (seq 0 h).

Definition amap {A B} (f : A -> B) (a : arr A) : arr B := map (map f) a.

(** numpy broadcasting of two 2D shapes *)
Definition bdim (m n : nat) : option nat :=
  if Nat.eqb m n then Some m
  else if Nat.eqb m 1 then Some n
  else if Nat.eqb n 1 then Some m
  else None.

Definition bidx (m i : nat) : nat := if Nat.eqb m 1 then 0%nat else i.

Definition broadcast2 {A B C} (dA : A) (dB : B) (f : A -> B -> C)
    (a : arr A) (b : arr B) : option (arr C) :=
  match bdim (nrows a) (nrows b), bdim (ncols a) (ncols b) with
  | Some h, Some w =>
      Some (tabulate h w (fun y x =>
              f (at2 dA a (bidx (nrows a) y) (bidx (ncols a) x))
                (at2 dB b (bidx (nrows b) y) (bidx (ncols b) x))))
  | _, _ => None
  end.

(** ** Errors raised by numpy on the modelled paths *)

Inductive np_error :=
| BroadcastError      (* ValueError: operands could not be broadcast together *)
| BooleanIndexError   (* IndexError: boolean index did not match indexed array *)
| NoneOperandError    (* TypeError: unsupported operand type(s) for +: NoneType *)
| RaggedArrayError.   (* ValueError: setting an array element with a sequence
                         (inhomogeneous shape), numpy 1.24 and later *)

Definition result (A : Type) := (A + np_error)%type.

Definition ret {A} (a : A) : result A := inl a.
Definition raise {A} (e : np_error) : result A := inr e.
Definition bind {A B} (m : result A) (k : A -> result B) : result B :=
  match m with inl a => k a | inr e => inr e end.

Notation "'let*' x ':=' m 'in' k" := (bind m (fun x => k))
  (at level 200, x ident, m at level 100, k at level 200).

(** ** Scalars *)

Definition Qltb (a b : Q) : bool := negb (Qle_bool b a).
Definition qmax (a b : Q) : Q := if Qle_bool a b then b else a.
Definition qmin (a b : Q) : Q := if Qle_bool a b then a else b.

(** [int(q)] of Python: truncation toward zero *)
Definition py_int (q : Q) : Z :=
  if Qle_bool 0 q then Qfloor q else - Qfloor (- q).

(** [int(math.sqrt(q))] for q >= 0, exactly: floor (sqrt q) = isqrt (floor q) *)
Definition floor_sqrt (q : Q) : Z := Z.sqrt (Qfloor q).

Definition mean (l : list Q) : Q :=
  fold_left Qplus l 0%Q / inject_Z (Z.of_nat (length l)).

(** [np.argmin]: index of the first minimum *)
Fixpoint argmin_aux (l : list Q) (i best : nat) (bv : Q) : nat :=
  match l with
  | [] => best
  | v :: t => if Qltb v bv then argmin_aux t (S i) i v else argmin_aux t (S i) best bv
  end.

Definition argmin (l : list Q) : nat :=
  match l with [] => 0%nat | v :: t => argmin_aux t 1 0 v end.

(** [np.roll(a, s, 0)]: element i of the result is a[(i - s) mod n] *)
Definition np_roll {A} (d : A) (l : list A) (s : Z) : list A :=
  let n := Z.of_nat (length l) in
  map (fun i => nth (Z.to_nat ((Z.of_nat i - s) mod n)) l d) (seq 0 (length l)).

(** Python [l[i] = v] for an index in range *)
Fixpoint set_nth {A} (l : list A) (i : nat) (v : A) : list A :=
  match l, i with
  | [], _ => []
  | _ :: t, O => v :: t
  | h :: t, S i' => h :: set_nth t i' v
  end.

(** ** cv2.threshold(m, thresh, 1, THRESH_BINARY): 1 where m > thresh

    [cv2_threshold] is the map returned for a non-empty array; for an
    empty one (no row or no column) cv2.threshold returns None instead,
    which [getDetBoxes_core] checks with [is_empty]. *)

Definition cv2_threshold (m : arr Q) (thresh : Q) : arr Z :=
  amap (fun v => if Qltb thresh v then 1 else 0) m.

Definition is_empty {A} (a : arr A) : bool := (nrows a =? 0)%nat || (ncols a =? 0)%nat.

(** ** cv2.connectedComponentsWithStats(m, connectivity=4)

    Components are numbered 1, 2, ... in raster order of their first pixel;
    label 0 is the background, and the returned label count includes it. *)

Definition pixel := (Z * Z)%type.  (* (row, column) *)

Definition pixel_eqb (p q : pixel) : bool := (fst p =? fst q) && (snd p =? snd q).

Definition adj4 (p q : pixel) : bool :=
  Z.abs (fst p - fst q) + Z.abs (snd p - snd q) =? 1.

Definition pixels_where (f : Z -> bool) (m : arr Z) : list pixel :=
  flat_map (fun y =>
    map (fun x => (Z.of_nat y, Z.of_nat x))
        (filter (fun x => f (at2 0 m y x)) (seq 0 (ncols m))))
    (seq 0 (nrows m)).

Definition foreground (m : arr Z) : list pixel := pixels_where (fun v => negb (v =? 0)) m.

Fixpoint flood (fuel : nat) (frontier rest comp : list pixel) : list pixel * list pixel :=
  match fuel with
  | O => (comp, rest)
  | S f =>
      match frontier with
      | [] => (comp, rest)
      | p :: fr =>
          let (nb, rest') := partition (adj4 p) rest in
          flood f (fr ++ nb) rest' (comp ++ nb)
      end
  end.

Fixpoint components_of (fuel : nat) (pts : list pixel) : list (list pixel) :=
  match fuel with
  | O => []
  | S f =>
      match pts with
      | [] => []
      | p :: rest =>
          let (c, rest') := flood (S (length pts)) [p] rest [p] in
          c :: components_of f rest'
      end
  end.

Fixpoint label_in (cs : list (list pixel)) (p : pixel) (i : Z) : Z :=
  match cs with
  | [] => 0
  | c :: cs' => if existsb (pixel_eqb p) c then i else label_in cs' p (i + 1)
  end.

Record cc_stat := {
  CC_STAT_LEFT : Z; CC_STAT_TOP : Z; CC_STAT_WIDTH : Z; CC_STAT_HEIGHT : Z;
  CC_STAT_AREA : Z }.

Definition stat_of (c : list pixel) : cc_stat :=
  let ys := map fst c in
  let xs := map snd c in
  let x0 := fold_left Z.min xs (hd 0 xs) in
  let x1 := fold_left Z.max xs (hd 0 xs) in
  let y0 := fold_left Z.min ys (hd 0 ys) in
  let y1 := fold_left Z.max ys (hd 0 ys) in
  {| CC_STAT_LEFT := x0; CC_STAT_TOP := y0;
     CC_STAT_WIDTH := x1 - x0 + 1; CC_STAT_HEIGHT := y1 - y0 + 1;
     CC_STAT_AREA := Z.of_nat (length c) |}.

Record cc_out := { nLabels : Z; cc_labels : arr Z; cc_stats : list cc_stat }.

Definition connectedComponentsWithStats (m : arr Z) : cc_out :=
  let fg := foreground m in
  let cs := components_of (S (length fg)) fg in
  {| nLabels := 1 + Z.of_nat (length cs);
     cc_labels := tabulate (nrows m) (ncols m)
                    (fun y x => label_in cs (Z.of_nat y, Z.of_nat x) 1);
     cc_stats := stat_of (pixels_where (fun v => v =? 0) m) :: map stat_of cs |}.

Definition stat_at (st : list cc_stat) (k : Z) : cc_stat :=
  nth (Z.to_nat k) st (stat_of []).

(** ** Boxes *)

Definition point := (Q * Q)%type.   (* (x, y) *)
Definition box := list point.        (* a 4x2 float32 array *)

Definition pt (b : box) (i : nat) : point := nth i b (0%Q, 0%Q).

Definition dist2 (p q : point) : Q :=
  ((fst p - fst q) * (fst p - fst q) + (snd p - snd q) * (snd p - snd q))%Q.

(** ** Library primitives the source calls and whose values are taken as given *)

Record Geom := {
  g_sqrt : Q -> Q;                                (* math.sqrt behind np.linalg.norm *)
  g_atan2 : Q -> Q -> Q;                          (* math.atan2 *)
  g_cos : Q -> Q;                                 (* math.cos *)
  g_sin : Q -> Q;                                 (* math.sin *)
  g_minAreaRect_boxPoints : list (Z * Z) -> box;  (* cv2.boxPoints(cv2.minAreaRect(pts)) *)
  g_line_hits : arr Z -> Z * Z -> Z * Z -> bool   (* np.sum(np.logical_and(img, cv2.line(..., p, q, 1, thickness=1))) != 0 *)
}.

(** ** cv2.dilate with a square all-ones kernel, constant border ignored *)

Definition dilate_rect (src : arr Z) (k : nat) : arr Z :=
  let a := Z.of_nat (Nat.div k 2) in
  let h := Z.of_nat (nrows src) in
  let w := Z.of_nat (ncols src) in
  tabulate (nrows src) (ncols src) (fun y x =>
    fold_left (fun acc ij =>
      let yy := Z.of_nat y + Z.of_nat (fst ij) - a in
      let xx := Z.of_nat x + Z.of_nat (snd ij) - a in
      if (0 <=? yy) && (yy <? h) && (0 <=? xx) && (xx <? w)
      then Z.max acc (at2 0 src (Z.to_nat yy) (Z.to_nat xx)) else acc)
      (list_prod (seq 0 k) (seq 0 k)) 0).

(** [a[sy:ey, sx:ex]] and [a[sy:ey, sx:ex] = win] *)
Definition slice2 (a : arr Z) (sy ey sx ex : nat) : arr Z :=
  map (fun r => firstn (ex - sx) (skipn sx r)) (firstn (ey - sy) (skipn sy a)).

Definition paste2 (a : arr Z) (sy sx : nat) (win : arr Z) : arr Z :=
  tabulate (nrows a) (ncols a) (fun y x =>
    if (sy <=? y)%nat && (y <? sy + nrows win)%nat && (sx <=? x)%nat && (x <? sx + ncols win)%nat
    then at2 0 win (y - sy) (x - sx) else at2 0 a y x).

(** [textmap[labels == k]] *)
Definition masked_values (textmap : arr Q) (labels : arr Z) (k : Z) : list Q :=
  flat_map (fun y =>
    flat_map (fun x => if at2 0 labels y x =? k then [at2 0%Q textmap y x] else [])
      (seq 0 (ncols labels)))
    (seq 0 (nrows labels)).

Definition zmin_list (l : list Z) : Z := fold_left Z.min l (hd 0 l).
Definition zmax_list (l : list Z) : Z := fold_left Z.max l (hd 0 l).

(** itertools.permutations(range(4), 2), in its order *)
Definition perms2 : list (nat * nat) :=
  filter (fun ij => negb (Nat.eqb (fst ij) (snd ij))) (list_prod (seq 0 4) (seq 0 4)).

Definition centroid (b : box) : point :=
  (mean (map fst b), mean (map snd b)).

Record core_acc := {
  acc_det : list box;
  acc_mapper : list Z;
  acc_num_characters : list Z;
  acc_avg_character_sizes : list Q }.

Record core_out := {
  c_det : list box;
  c_labels : arr Z;
  c_mapper : list Z;
  c_num_characters : list Z;
  c_avg_character_sizes : list Q;
  c_word_id : list Z }.

Section Detector.

Variable G : Geom.

(** [d] of getDetBoxes_core *)
Definition d (c1 c2 : point) : Q := g_sqrt G (dist2 c1 c2).

(** [sort_box] of getDetBoxes_core *)
Definition sort_box (b : box) : box :=
  let aymin := argmin (map snd b) in
  let tl :=
    if Qltb (d (pt b (Nat.modulo (aymin + 2) 4)) (pt b (Nat.modulo (aymin + 1) 4)))
            (d (pt b aymin) (pt b (Nat.modulo (aymin + 1) 4)))
    then aymin
    else Nat.modulo (aymin + 3) 4 in
  skipn tl b ++ firstn tl b.

(** [compare_boxes] of getDetBoxes_core, with slope_thresh = 0.1 and
    min_edge_distance = 10; the source returns None (falsy) when box1 is
    above box2 and no pair of edges matches *)
Definition safe_den (v : Q) : Q := if Qeq_bool v 0 then (1 # 1000)%Q else v.

Definition compare_boxes (box1 box2 : box) : bool :=
  let boxcentroid1 := centroid box1 in
  let boxcentroid2 := centroid box2 in
  if Qltb (snd boxcentroid1) (snd boxcentroid2) then
    existsb (fun ij : nat * nat =>
      let (i, j) := ij in
      existsb (fun kl : nat * nat =>
        let (k, l) := kl in
        let slope1 := ((snd (pt box1 i) - snd (pt box1 j)) / safe_den (fst (pt box2 i) - fst (pt box2 j)))%Q in
        let slope2 := ((snd (pt box1 k) - snd (pt box1 l)) / safe_den (fst (pt box2 k) - fst (pt box2 l)))%Q in
        let linecentroid1 := ((fst (pt box1 i) + fst (pt box1 j)) / 2, (snd (pt box1 i) + snd (pt box1 j)) / 2)%Q in
        let linecentroid2 := ((fst (pt box2 j) + fst (pt box2 k)) / 2, (snd (pt box2 j) + snd (pt box2 k)) / 2)%Q in
        Qltb (Qabs (slope1 - slope2)) (1 # 10) &&
        Qltb (Qabs (fst linecentroid1 - fst linecentroid2) + Qabs (snd linecentroid1 - snd linecentroid2)) 10)
        perms2)
      perms2
  else false.

(** The word_id loop at the end of getDetBoxes_core *)
Definition link_words (det : list box) (avg_character_sizes : list Q) : list Z :=
  let n := length (combine det avg_character_sizes) in
  fold_left (fun word_id id1 =>
    fold_left (fun word_id id2 =>
      if Nat.eqb id1 id2 then word_id
      else if compare_boxes (nth id1 det []) (nth id2 det []) then set_nth word_id id1 (Z.of_nat id2)
      else word_id)
      (seq 0 n) word_id)
    (seq 0 n) (repeat (-1) (length det)).

(** "make box" .. "make clock-wise order" of getDetBoxes_core *)
Definition make_box (segmap : arr Z) : box :=
  let np_contours := map (fun p => (snd p, fst p)) (foreground segmap) in
  let b0 := g_minAreaRect_boxPoints G np_contours in
  let w := d (pt b0 0) (pt b0 1) in
  let h := d (pt b0 1) (pt b0 2) in
  let box_ratio := (qmax w h / (qmin w h + (1 # 100000)))%Q in
  let b1 :=
    if Qle_bool (Qabs (1 - box_ratio)) (1 # 10) then
      let l := inject_Z (zmin_list (map fst np_contours)) in
      let r := inject_Z (zmax_list (map fst np_contours)) in
      let t := inject_Z (zmin_list (map snd np_contours)) in
      let b := inject_Z (zmax_list (map snd np_contours)) in
      [(l, t); (r, t); (r, b); (l, b)]
    else b0 in
  let startidx := argmin (map (fun p => fst p + snd p)%Q b1) in
  let b2 := np_roll (0%Q, 0%Q) b1 (4 - Z.of_nat startidx) in
  sort_box b2.

(** The body of [for k in range(1, nLabels)] in getDetBoxes_core *)
Definition getDetBoxes_step (textmap : arr Q) (text_score link_score labels : arr Z)
    (stats : list cc_stat) (text_threshold : Q) (acc : core_acc) (k : Z) : result core_acc :=
  let st := stat_at stats k in
  let size := CC_STAT_AREA st in
  if size <? 10 then ret acc else
  if negb (shape_eqb (shape labels) (shape textmap)) then raise BooleanIndexError else
  let vals := masked_values textmap labels k in
  if Qltb (fold_left qmax vals (hd 0%Q vals)) text_threshold then ret acc else
  let segmap0 := tabulate (nrows textmap) (ncols textmap)
                   (fun y x => if at2 0 labels y x =? k then 255 else 0) in
  match broadcast2 0 0 (fun l t => (l =? 1) && (t =? 0)) link_score text_score with
  | None => raise BroadcastError
  | Some link_area =>
    if negb (shape_eqb (shape link_area) (shape segmap0)) then raise BooleanIndexError else
    let segmap1 := tabulate (nrows segmap0) (ncols segmap0)
                     (fun y x => if at2 false link_area y x then 0 else at2 0 segmap0 y x) in
    let wc := connectedComponentsWithStats segmap1 in
    let word_chars := nLabels wc in
    let avg_character_size := mean (map (fun s => inject_Z (CC_STAT_AREA s)) (cc_stats wc)) in
    let x := CC_STAT_LEFT st in
    let y := CC_STAT_TOP st in
    let w := CC_STAT_WIDTH st in
    let h := CC_STAT_HEIGHT st in
    let niter := floor_sqrt (inject_Z (4 * size * Z.min w h) / inject_Z (w * h)) in
    let img_h := Z.of_nat (nrows textmap) in
    let img_w := Z.of_nat (ncols textmap) in
    let sx := Z.max 0 (x - niter) in
    let sy := Z.max 0 (y - niter) in
    let ex := if img_w <=? x + w + niter + 1 then img_w else x + w + niter + 1 in
    let ey := if img_h <=? y + h + niter + 1 then img_h else y + h + niter + 1 in
    let win := slice2 segmap1 (Z.to_nat sy) (Z.to_nat ey) (Z.to_nat sx) (Z.to_nat ex) in
    let segmap2 := paste2 segmap1 (Z.to_nat sy) (Z.to_nat sx) (dilate_rect win (Z.to_nat (1 + niter))) in
    ret {| acc_det := acc_det acc ++ [make_box segmap2];
           acc_mapper := acc_mapper acc ++ [k];
           acc_num_characters := acc_num_characters acc ++ [word_chars];
           acc_avg_character_sizes := acc_avg_character_sizes acc ++ [avg_character_size] |}
  end.

Fixpoint getDetBoxes_loop (textmap : arr Q) (text_score link_score labels : arr Z)
    (stats : list cc_stat) (text_threshold : Q) (ks : list Z) (acc : core_acc) : result core_acc :=
  match ks with
  | [] => ret acc
  | k :: ks' =>
      let* acc' := getDetBoxes_step textmap text_score link_score labels stats text_threshold acc k in
      getDetBoxes_loop textmap text_score link_score labels stats text_threshold ks' acc'
  end.

Definition getDetBoxes_core (textmap linkmap : arr Q) (text_threshold link_threshold low_text : Q)
    : result core_out :=
  (* an empty map makes cv2.threshold return None, and text_score + link_score raises *)
  if is_empty textmap || is_empty linkmap then raise NoneOperandError else
  let text_score := cv2_threshold textmap low_text in
  let link_score := cv2_threshold linkmap link_threshold in
  match broadcast2 0 0 (fun t l => Z.min 1 (Z.max 0 (t + l))) text_score link_score with
  | None => raise BroadcastError
  | Some text_score_comb =>
    let cc := connectedComponentsWithStats text_score_comb in
    let* acc := getDetBoxes_loop textmap text_score link_score (cc_labels cc) (cc_stats cc)
                  text_threshold (map Z.of_nat (seq 1 (Z.to_nat (nLabels cc - 1))))
                  {| acc_det := []; acc_mapper := []; acc_num_characters := [];
                     acc_avg_character_sizes := [] |} in
    ret {| c_det := acc_det acc;
           c_labels := cc_labels cc;
           c_mapper := acc_mapper acc;
           c_num_characters := acc_num_characters acc;
           c_avg_character_sizes := acc_avg_character_sizes acc;
           c_word_id := link_words (acc_det acc) (acc_avg_character_sizes acc) |}
  end.

End Detector.

(** ** cv2.getPerspectiveTransform, np.linalg.inv, cv2.warpPerspective *)

(** 3x3 matrices, row-major *)
Definition mat3 := list Q.
Definition m3 (m : mat3) (i : nat) : Q := nth i m 0%Q.

(** Gaussian elimination on an augmented square system; [None] when singular *)
Fixpoint find_pivot (c : nat) (rows : list (list Q)) : option (list Q * list (list Q)) :=
  match rows with
  | [] => None
  | r :: rs =>
      if Qeq_bool (nth c r 0%Q) 0 then
        match find_pivot c rs with
        | Some (p, rest) => Some (p, r :: rest)
        | None => None
        end
      else Some (r, rs)
  end.

Definition eliminate (c : nat) (p r : list Q) : list Q :=
  let f := (nth c r 0 / nth c p 0)%Q in
  map (fun ab => Qred (fst ab - f * snd ab)%Q) (combine r p).

Fixpoint forward (fuel c : nat) (rows : list (list Q)) : option (list (list Q)) :=
  match rows with
  | [] => Some []
  | _ =>
      match fuel with
      | O => None
      | S f =>
          match find_pivot c rows with
          | None => None
          | Some (p, rest) =>
              match forward f (S c) (map (eliminate c p) rest) with
              | Some ps => Some (p :: ps)
              | None => None
              end
          end
      end
  end.

Fixpoint backsub (ps : list (list Q)) (i n : nat) : list Q :=
  match ps with
  | [] => []
  | p :: ps' =>
      let xs := backsub ps' (S i) n in
      let s := fold_left Qplus (map (fun jx => nth (S i + fst jx) p 0 * snd jx)%Q
                                    (combine (seq 0 (length xs)) xs)) 0%Q in
      Qred ((nth n p 0 - s) / nth i p 0)%Q :: xs
  end.

Definition solve (a : list (list Q)) (b : list Q) : option (list Q) :=
  let n := length b in
  match forward n 0 (map (fun rb => fst rb ++ [snd rb]) (combine a b)) with
  | Some ps => Some (backsub ps 0 n)
  | None => None
  end.

(** cv2.getPerspectiveTransform(src, dst): the 8x8 system of OpenCV,
    solved by LU; OpenCV zeroes the solution when the system is singular *)
Definition getPerspectiveTransform (src dst : box) : mat3 :=
  let xs i := fst (pt src i) in
  let ys i := snd (pt src i) in
  let us i := fst (pt dst i) in
  let vs i := snd (pt dst i) in
  let a :=
    map (fun i => [xs i; ys i; 1; 0; 0; 0; - xs i * us i; - ys i * us i]%Q) (seq 0 4) ++
    map (fun i => [0; 0; 0; xs i; ys i; 1; - xs i * vs i; - ys i * vs i]%Q) (seq 0 4) in
  let b := map us (seq 0 4) ++ map vs (seq 0 4) in
  match solve a b with
  | Some x => x ++ [1%Q]
  | None => repeat 0%Q 8 ++ [1%Q]
  end.

Definition det3 (m : mat3) : Q :=
  (m3 m 0 * (m3 m 4 * m3 m 8 - m3 m 5 * m3 m 7)
   - m3 m 1 * (m3 m 3 * m3 m 8 - m3 m 5 * m3 m 6)
   + m3 m 2 * (m3 m 3 * m3 m 7 - m3 m 4 * m3 m 6))%Q.

(** np.linalg.inv: raises LinAlgError (here [None]) on a singular matrix *)
Definition inv3 (m : mat3) : option mat3 :=
  let dt := Qred (det3 m) in
  if Qeq_bool dt 0 then None
  else Some (map (fun v => Qred (v / dt))%Q
    [ m3 m 4 * m3 m 8 - m3 m 5 * m3 m 7; m3 m 2 * m3 m 7 - m3 m 1 * m3 m 8; m3 m 1 * m3 m 5 - m3 m 2 * m3 m 4;
      m3 m 5 * m3 m 6 - m3 m 3 * m3 m 8; m3 m 0 * m3 m 8 - m3 m 2 * m3 m 6; m3 m 2 * m3 m 3 - m3 m 0 * m3 m 5;
      m3 m 3 * m3 m 7 - m3 m 4 * m3 m 6; m3 m 1 * m3 m 6 - m3 m 0 * m3 m 7; m3 m 0 * m3 m 4 - m3 m 1 * m3 m 3 ]%Q).

(** cvRound: round half to even *)
Definition cv_round (q : Q) : Z :=
  let f := Qfloor q in
  let r := (q - inject_Z f)%Q in
  if Qltb r (1 # 2) then f
  else if Qltb (1 # 2) r then f + 1
  else if Z.even f then f else f + 1.

(** cv2.warpPerspective(src, M, (w, h), flags=INTER_NEAREST): every
    destination pixel reads the source at the rounded image of the inverse
    map (cv::invert gives the zero matrix when M is singular); pixels that
    fall outside the source get the constant border 0 *)
Definition warpPerspective (src : arr Z) (M : mat3) (w h : Z) : arr Z :=
  let Mi := match inv3 M with Some m => m | None => repeat 0%Q 9 end in
  tabulate (Z.to_nat h) (Z.to_nat w) (fun y x =>
    let qx := inject_Z (Z.of_nat x) in
    let qy := inject_Z (Z.of_nat y) in
    let W := (m3 Mi 6 * qx + m3 Mi 7 * qy + m3 Mi 8)%Q in
    let W' := if Qeq_bool W 0 then 0%Q else (1 / W)%Q in
    let X := cv_round ((m3 Mi 0 * qx + m3 Mi 1 * qy + m3 Mi 2) * W')%Q in
    let Y := cv_round ((m3 Mi 3 * qx + m3 Mi 4 * qy + m3 Mi 5) * W')%Q in
    if (0 <=? X) && (X <? Z.of_nat (ncols src)) && (0 <=? Y) && (Y <? Z.of_nat (nrows src))
    then at2 0 src (Z.to_nat Y) (Z.to_nat X) else 0).

(** [warpCoord] of the source (numpy's inf/nan on a zero third coordinate
    is Q's division by zero, 0) *)
Definition warpCoord (Minv : mat3) (p : point) : point :=
  let o0 := (m3 Minv 0 * fst p + m3 Minv 1 * snd p + m3 Minv 2)%Q in
  let o1 := (m3 Minv 3 * fst p + m3 Minv 4 * snd p + m3 Minv 5)%Q in
  let o2 := (m3 Minv 6 * fst p + m3 Minv 7 * snd p + m3 Minv 8)%Q in
  ((o0 / o2)%Q, (o1 / o2)%Q).

Fixpoint insert_sorted (v : Z) (l : list Z) : list Z :=
  match l with [] => [v] | h :: t => if v <=? h then v :: l else h :: insert_sorted v t end.

(** np.median of a list of odd length *)
Definition median_odd (l : list Z) : Q :=
  inject_Z (nth (Nat.div (length l) 2) (fold_right insert_sorted [] l) 0).

(** ** getPoly_core *)

Definition num_cp : nat := 5.
Definition max_len_ratio : Q := 7 # 10.
Definition expand_ratio : Q := 145 # 100.
Definition max_r : Q := 2.
Definition step_r : Q := 1 # 5.
Definition tot_seg : nat := (num_cp * 2 + 1)%nat.

(** np.arange(0.5, max_r, step_r) *)
Definition radii : list Q := map (fun i => (1 # 2) + inject_Z (Z.of_nat i) * step_r)%Q (seq 0 8).

(** "find top/bottom contours": the columns with at least two foreground
    rows, as (x, first row, last row), and the longest vertical run *)
Definition top_bottom (word_label : arr Z) (w h : Z) : list (Z * Z * Z) * Z :=
  fold_left (fun st i =>
    let region := filter (fun r => negb (at2 0 word_label r i =? 0)) (seq 0 (Z.to_nat h)) in
    if (length region <? 2)%nat then st
    else
      let r0 := Z.of_nat (hd 0%nat region) in
      let r1 := Z.of_nat (last region 0%nat) in
      let length := r1 - r0 + 1 in
      (fst st ++ [(Z.of_nat i, r0, r1)], if snd st <? length then length else snd st))
    (seq 0 (Z.to_nat w)) ([], -1).

Record pivot_state := {
  seg_num : nat;
  num_sec : Z;
  prev_h : Z;
  cp_section : list point;
  pp : list (option point);
  seg_height : list Z }.

(** "get pivot points with fixed length": the loop over [cp], with its [break] *)
Fixpoint pivot_loop (seg_w : Q) (cp : list (Z * Z * Z)) (s : pivot_state) : pivot_state :=
  match cp with
  | [] => s
  | (x, sy, ey) :: cp' =>
      let boundary :=
        Qle_bool (inject_Z (Z.of_nat (seg_num s + 1)) * seg_w) (inject_Z x) &&
        (seg_num s <=? tot_seg)%nat in
      if boundary && (num_sec s =? 0) then s   (* break *)
      else
        let s1 :=
          if boundary then
            let c := nth (seg_num s) (cp_section s) (0%Q, 0%Q) in
            {| seg_num := S (seg_num s); num_sec := 0; prev_h := -1;
               cp_section := set_nth (cp_section s) (seg_num s)
                               (fst c / inject_Z (num_sec s), snd c / inject_Z (num_sec s))%Q;
               pp := pp s; seg_height := seg_height s |}
          else s in
        let cy := (inject_Z (sy + ey) * (1 # 2))%Q in
        let cur_h := ey - sy + 1 in
        let c := nth (seg_num s1) (cp_section s1) (0%Q, 0%Q) in
        let s2 := {| seg_num := seg_num s1; num_sec := num_sec s1 + 1; prev_h := prev_h s1;
                     cp_section := set_nth (cp_section s1) (seg_num s1)
                                     (fst c + inject_Z x, snd c + cy)%Q;
                     pp := pp s1; seg_height := seg_height s1 |} in
        if Nat.even (seg_num s2) then pivot_loop seg_w cp' s2
        else if prev_h s2 <? cur_h then
          let idx := Nat.div (seg_num s2 - 1) 2 in
          pivot_loop seg_w cp'
            {| seg_num := seg_num s2; num_sec := num_sec s2; prev_h := cur_h;
               cp_section := cp_section s2;
               pp := set_nth (pp s2) idx (Some (inject_Z x, cy));
               seg_height := set_nth (seg_height s2) idx cur_h |}
        else pivot_loop seg_w cp' s2
  end.

Definition pivot_init : pivot_state :=
  {| seg_num := 0; num_sec := 0; prev_h := -1;
     cp_section := repeat (0%Q, 0%Q) tot_seg;
     pp := repeat None num_cp; seg_height := repeat 0 num_cp |}.

(** "processing last segment" (the source divides the entry at index -1) *)
Definition last_segment (s : pivot_state) : list point :=
  if num_sec s =? 0 then cp_section s
  else
    let c := nth (tot_seg - 1) (cp_section s) (0%Q, 0%Q) in
    set_nth (cp_section s) (tot_seg - 1) (fst c / inject_Z (num_sec s), snd c / inject_Z (num_sec s))%Q.

Fixpoint all_some {A} (l : list (option A)) : option (list A) :=
  match l with
  | [] => Some []
  | None :: _ => None
  | Some a :: t => match all_some t with Some t' => Some (a :: t') | None => None end
  end.

Section Poly.

Variable G : Geom.

(** "calc gradiant and apply to make horizontal pivots" *)
Definition horizontal_pivots (cp_sec : list point) (pps : list point) (half_char_h : Q)
    : list (list Q) :=
  map (fun ip : nat * point =>
    let (i, p) := ip in
    let (x, cy) := p in
    let dx := (fst (nth (i * 2 + 2)%nat cp_sec (0%Q, 0%Q)) - fst (nth (i * 2)%nat cp_sec (0%Q, 0%Q)))%Q in
    let dy := (snd (nth (i * 2 + 2)%nat cp_sec (0%Q, 0%Q)) - snd (nth (i * 2)%nat cp_sec (0%Q, 0%Q)))%Q in
    if Qeq_bool dx 0 then [x; cy - half_char_h; x; cy + half_char_h]%Q
    else
      let rad := (- g_atan2 G dy dx)%Q in
      let c := (half_char_h * g_cos G rad)%Q in
      let s := (half_char_h * g_sin G rad)%Q in
      [x - s; cy - c; x + s; cy + c]%Q)
    (combine (seq 0 (length pps)) pps).

Definition line_hits4 (word_label : arr Z) (p : list Q) : bool :=
  g_line_hits G word_label (py_int (nth 0 p 0%Q), py_int (nth 1 p 0%Q))
                           (py_int (nth 2 p 0%Q), py_int (nth 3 p 0%Q)).

(** "get edge points to cover character heatmaps": the loop over the radii,
    returning (spp, epp) when found *)
Fixpoint endcap_loop (word_label : arr Z) (first_pp last_pp : list Q) (grad_s grad_e half_char_h : Q)
    (rs : list Q) (spp epp : option (list Q)) : option (list Q) * option (list Q) :=
  match rs with
  | [] => (spp, epp)
  | r :: rs' =>
      let dx := (2 * half_char_h * r)%Q in
      let spp' :=
        match spp with
        | Some _ => spp
        | None =>
            let dy := (grad_s * dx)%Q in
            let p := map (fun ab => (fst ab - snd ab)%Q) (combine first_pp [dx; dy; dx; dy]) in
            if negb (line_hits4 word_label p) || Qle_bool max_r (r + 2 * step_r) then Some p else None
        end in
      let epp' :=
        match epp with
        | Some _ => epp
        | None =>
            let dy := (grad_e * dx)%Q in
            let p := map (fun ab => (fst ab + snd ab)%Q) (combine last_pp [dx; dy; dx; dy]) in
            if negb (line_hits4 word_label p) || Qle_bool max_r (r + 2 * step_r) then Some p else None
        end in
      match spp', epp' with
      | Some _, Some _ => (spp', epp')
      | _, _ => endcap_loop word_label first_pp last_pp grad_s grad_e half_char_h rs' spp' epp'
      end
  end.

Definition grad_of (a b c : point) : Q :=
  ((snd b - snd a) / (fst b - fst a) + (snd c - snd b) / (fst c - fst b))%Q.

(** [w, h = int(np.linalg.norm(box[0] - box[1]) + 1), int(np.linalg.norm(box[1] - box[2]) + 1)] *)
Definition poly_wh (bx : box) : Z * Z :=
  (floor_sqrt (dist2 (pt bx 0) (pt bx 1)) + 1, floor_sqrt (dist2 (pt bx 1) (pt bx 2)) + 1).

Definition poly_tar (w h : Z) : box :=
  [(0, 0); (inject_Z w, 0); (inject_Z w, inject_Z h); (0, inject_Z h)]%Q.

(** The body of [for k, box in enumerate(boxes)] in getPoly_core *)
Definition getPoly_box (bx : box) (labels : arr Z) (cur_label : Z) : option (list point) :=
  let (w, h) := poly_wh bx in
  if (w <? 10) || (h <? 10) then None else
  let M := getPerspectiveTransform bx (poly_tar w h) in
  let word_label0 := warpPerspective labels M w h in
  match inv3 M with
  | None => None
  | Some Minv =>
    let word_label := amap (fun v => if v =? cur_label then (if 0 <? v then 1 else 0) else 0) word_label0 in
    let (cp, max_len) := top_bottom word_label w h in
    if Qltb (inject_Z h * max_len_ratio) (inject_Z max_len) then None else
    let seg_w := (inject_Z w / inject_Z (Z.of_nat tot_seg))%Q in
    let ps := pivot_loop seg_w cp pivot_init in
    let cp_sec := last_segment ps in
    match all_some (pp ps) with
    | None => None
    | Some pps =>
      if Qltb seg_w (inject_Z (zmax_list (seg_height ps)) * (1 # 4)) then None else
      let half_char_h := (median_odd (seg_height ps) * expand_ratio / 2)%Q in
      let new_pp := horizontal_pivots cp_sec pps half_char_h in
      let p0 := nth 0 pps (0%Q, 0%Q) in
      let p1 := nth 1 pps (0%Q, 0%Q) in
      let p2 := nth 2 pps (0%Q, 0%Q) in
      let pl1 := nth 4 pps (0%Q, 0%Q) in
      let pl2 := nth 3 pps (0%Q, 0%Q) in
      let pl3 := nth 2 pps (0%Q, 0%Q) in
      let grad_s := grad_of p0 p1 p2 in
      let grad_e := grad_of pl1 pl2 pl3 in
      match endcap_loop word_label (nth 0 new_pp []) (last new_pp []) grad_s grad_e half_char_h
              radii None None with
      | (Some spp, Some epp) =>
          let nth4 (p : list Q) i := nth i p 0%Q in
          Some ([warpCoord Minv (nth4 spp 0%nat, nth4 spp 1%nat)] ++
                map (fun p => warpCoord Minv (nth4 p 0%nat, nth4 p 1%nat)) new_pp ++
                [warpCoord Minv (nth4 epp 0%nat, nth4 epp 1%nat); warpCoord Minv (nth4 epp 2%nat, nth4 epp 3%nat)] ++
                map (fun p => warpCoord Minv (nth4 p 2%nat, nth4 p 3%nat)) (rev new_pp) ++
                [warpCoord Minv (nth4 spp 2%nat, nth4 spp 3%nat)])
      | _ => None   (* "pass if boundary of polygon is not found" *)
      end
    end
  end.

Definition getPoly_core (boxes : list box) (labels : arr Z) (mapper : list Z) (linkmap : arr Q)
    : list (option (list point)) :=
  map (fun k => getPoly_box (nth k boxes []) labels (nth k mapper 0)) (seq 0 (length boxes)).

End Poly.

(** The two filters of the [for k in range(1, nLabels)] loop of
    getDetBoxes_core: a label is kept when its area is at least 10 and the
    largest textmap value under it is at least text_threshold *)
Definition label_kept (textmap : arr Q) (labels : arr Z) (stats : list cc_stat)
    (text_threshold : Q) (k : Z) : bool :=
  negb (CC_STAT_AREA (stat_at stats k) <? 10) &&
  (let vals := masked_values textmap labels k in
   negb (Qltb (fold_left qmax vals (hd 0%Q vals)) text_threshold)).

(** Invariant of the [num_characters] and [avg_character_sizes] lists of
    the loop: each count is at least 1 and times its average equals [N] *)
Definition chars_ok (N : Q) (acc : core_acc) : Prop :=
  Forall2 (fun n a => 1 <= n /\ (inject_Z n * a == N)%Q)
    (acc_num_characters acc) (acc_avg_character_sizes acc).

(** An entry [(i, sy, ey)] of the "find top/bottom contours" list: column
    [i] of [word_label] has its first nonzero row at [sy] and its last at [ey] *)
Definition tb_entry (word_label : arr Z) (w h : Z) (e : Z * Z * Z) : Prop :=
  let '(i, sy, ey) := e in
  0 <= i < w /\ 0 <= sy /\ sy < ey /\ ey < h /\
  at2 0 word_label (Z.to_nat sy) (Z.to_nat i) <> 0 /\
  at2 0 word_label (Z.to_nat ey) (Z.to_nat i) <> 0 /\
  (forall r : nat, Z.of_nat r < sy -> at2 0 word_label r (Z.to_nat i) = 0) /\
  (forall r : nat, ey < Z.of_nat r < h -> at2 0 word_label r (Z.to_nat i) = 0).

Definition tb_len (e : Z * Z * Z) : Z := snd e - snd (fst e) + 1.

(** ** getDetBoxes *)

Record det_result := {
  boxes : list box;
  labels : arr Z;
  mapper : list Z;
  num_characters : list Z;
  average_character_size : list Q;
  word_id : list Z;
  polys : list (option (list point)) }.

Definition getDetBoxes (G : Geom) (textmap linkmap : arr Q)
    (text_threshold link_threshold low_text : Q) (poly : bool) : result det_result :=
  let* c := getDetBoxes_core G textmap linkmap text_threshold link_threshold low_text in
  let ps := if poly then getPoly_core G (c_det c) (c_labels c) (c_mapper c) linkmap
            else repeat None (length (c_det c)) in
  ret {| boxes := c_det c; labels := c_labels c; mapper := c_mapper c;
         num_characters := c_num_characters c;
         average_character_size := c_avg_character_sizes c;
         word_id := c_word_id c; polys := ps |}.

(** ** adjustResultCoordinates

    [np.array(polys)] (numpy 1.24 and later): a list of None only gives an
    object array of None; a list of point arrays all of one length n gives
    a float array of shape (len, n, 2); any other list (None beside point
    arrays, or point arrays of different lengths) is ragged and raises
    ValueError. The in-place [polys[k] *= (ratio_w * ratio_net,
    ratio_h * ratio_net)] then scales the x and y column of each point
    array. *)
Definition np_array_homogeneous (ps : list (option (list point))) : bool :=
  forallb (fun e => match e with None => true | Some _ => false end) ps ||
  match ps with
  | Some p0 :: _ =>
      forallb (fun e => match e with Some p => Nat.eqb (length p) (length p0) | None => false end) ps
  | _ => false
  end.

Definition adjustResultCoordinates (ps : list (option (list point))) (ratio_w ratio_h ratio_net : Q)
    : result (list (option (list point))) :=
  if (0 <? length ps)%nat then
    if np_array_homogeneous ps then
      ret (map (fun e => match e with
                         | None => None
                         | Some p => Some (map (fun xy => (fst xy * (ratio_w * ratio_net), snd xy * (ratio_h * ratio_net))%Q) p)
                         end) ps)
    else raise RaggedArrayError
  else ret ps.

(** ** copyStateDict

    A state dict is an association list from parameter names to values (the
    tensors, of any type [V]), in insertion order. *)

(** Python [s.split(".")] *)
Fixpoint split_dot (s : String.string) : list String.string :=
  match s with
  | String.EmptyString => [String.EmptyString]
  | String.String c s' =>
      match split_dot s' with
      | [] => [String.String c String.EmptyString]
      | r :: rs =>
          if Ascii.eqb c "."%char then String.EmptyString :: r :: rs
          else String.String c r :: rs
      end
  end.

(** Python [".".join(l)] *)
Fixpoint join_dot (l : list String.string) : String.string :=
  match l with
  | [] => String.EmptyString
  | [x] => x
  | x :: xs => String.append x (String.String "."%char (join_dot xs))
  end.

(** [new_state_dict[name] = v] on an OrderedDict: an existing key keeps its
    position and takes the new value, a new key goes to the end *)
Fixpoint od_set {V} (d : list (String.string * V)) (k : String.string) (v : V)
    : list (String.string * V) :=
  match d with
  | [] => [(k, v)]
  | (k', v') :: d' => if String.eqb k' k then (k', v) :: d' else (k', v') :: od_set d' k v
  end.

(** [new_state_dict[name]] *)
Fixpoint od_get {V} (d : list (String.string * V)) (k : String.string) : option V :=
  match d with
  | [] => None
  | (k', v') :: d' => if String.eqb k' k then Some v' else od_get d' k
  end.

(** [copyStateDict]; [None] is the IndexError of [list(state_dict.keys())[0]]
    on an empty dict *)
Definition copyStateDict {V} (state_dict : list (String.string * V))
    : option (list (String.string * V)) :=
  match state_dict with
  | [] => None
  | (k0, _) :: _ =>
      let start_idx := if String.prefix "module"%string k0 then 1%nat else 0%nat in
      Some (fold_left (fun new_state_dict kv =>
              od_set new_state_dict (join_dot (skipn start_idx (split_dot (fst kv)))) (snd kv))
              state_dict [])
  end.

(** ** The adjacency test as the spec words it (for comparison with [compare_boxes])

    Box i is above box j, and some edge (a, b) of box i and some edge (c, d)
    of box j, over ordered pairs of distinct vertex indices, have slopes
    differing by less than 0.1 and midpoints less than 10 apart in L1
    distance.  Vertical edges get the source's 0.001 denominator. *)
Definition edge_slope (b : box) (i j : nat) : Q :=
  ((snd (pt b i) - snd (pt b j)) / safe_den (fst (pt b i) - fst (pt b j)))%Q.

Definition edge_mid (b : box) (i j : nat) : point :=
  ((fst (pt b i) + fst (pt b j)) / 2, (snd (pt b i) + snd (pt b j)) / 2)%Q.

Definition adjacent_spec (box1 box2 : box) : bool :=
  Qltb (snd (centroid box1)) (snd (centroid box2)) &&
  existsb (fun ij : nat * nat =>
    existsb (fun kl : nat * nat =>
      let m1 := edge_mid box1 (fst ij) (snd ij) in
      let m2 := edge_mid box2 (fst kl) (snd kl) in
      Qltb (Qabs (edge_slope box1 (fst ij) (snd ij) - edge_slope box2 (fst kl) (snd kl))) (1 # 10) &&
      Qltb (Qabs (fst m1 - fst m2) + Qabs (snd m1 - snd m2)) 10)
      perms2)
    perms2.

(** word_id as the spec words it: the last qualifying j for each i *)
Definition link_words_spec (det : list box) : list Z :=
  map (fun i =>
    fold_left (fun acc j =>
      if negb (Nat.eqb i j) && adjacent_spec (nth i det []) (nth j det []) then Z.of_nat j else acc)
      (seq 0 (length det)) (-1))
    (seq 0 (length det)).

(** ** A sample instance of the library primitives, for running the model

    Exact for axis-aligned inputs: the bounding rectangle of the points as
    the rotated rectangle, a two-decimal square root, zero text angle, and a
    line rasterised by rounding along its longer axis. *)
Definition sample_sqrt (q : Q) : Q := (inject_Z (Z.sqrt (Qfloor (q * 10000))) / 100)%Q.

Definition sample_rect (pts : list (Z * Z)) : box :=
  let l := inject_Z (zmin_list (map fst pts)) in
  let r := inject_Z (zmax_list (map fst pts)) in
  let t := inject_Z (zmin_list (map snd pts)) in
  let b := inject_Z (zmax_list (map snd pts)) in
  [(l, b); (l, t); (r, t); (r, b)].

Definition sample_line_hits (img : arr Z) (p q : Z * Z) : bool :=
  let (x0, y0) := p in
  let (x1, y1) := q in
  let n := Z.max (Z.abs (x1 - x0)) (Z.abs (y1 - y0)) in
  existsb (fun i =>
    let t := (inject_Z (Z.of_nat i) / inject_Z n)%Q in
    let x := x0 + cv_round (inject_Z (x1 - x0) * t) in
    let y := y0 + cv_round (inject_Z (y1 - y0) * t) in
    (0 <=? x) && (x <? Z.of_nat (ncols img)) && (0 <=? y) && (y <? Z.of_nat (nrows img)) &&
    negb (at2 0 img (Z.to_nat y) (Z.to_nat x) =? 0))
    (seq 0 (S (Z.to_nat n))).

Definition G_axis : Geom := {|
  g_sqrt := sample_sqrt;
  g_atan2 := fun _ _ => 0%Q;
  g_cos := fun _ => 1%Q;
  g_sin := fun _ => 0%Q;
  g_minAreaRect_boxPoints := sample_rect;
  g_line_hits := sample_line_hits |}.

(** ** Concrete inputs *)

(** Scenario A: a 30x14 filled rectangle of text score 1 in a 32x16 map *)
Definition rectA : arr Q :=
  tabulate 16 32 (fun y x =>
    if ((1 <=? y) && (y <=? 14) && (1 <=? x) && (x <=? 30))%nat then 1%Q else 0%Q).

Definition zeros (h w : nat) : arr Q := tabulate h w (fun _ _ => 0%Q).

(** Two 100x20 line boxes, TL->TR->BR->BL, the second 5 pixels below the first *)
Definition box_top : box := [(0, 0); (100, 0); (100, 20); (0, 20)]%Q.
Definition box_bottom : box := [(0, 25); (100, 25); (100, 45); (0, 45)]%Q.

(** A 9x20 box over a label image whose label 1 is a 2-pixel-high stroke *)
Definition box_9x20 : box := [(0, 0); (9, 0); (9, 20); (0, 20)]%Q.
Definition labels_stroke : arr Z :=
  tabulate 25 12 (fun y x => if ((10 <=? y) && (y <=? 11) && (x <=? 9))%nat then 1 else 0).

(** A degenerate box: four collinear corners *)
Definition box_flat : box := [(0, 0); (20, 0); (40, 0); (60, 0)]%Q.

(** Two text lines: rows 1-3 at score 1 and rows 6-8 at score 0.75, columns 1-18, in a 12x20 map *)
Definition twoLines : arr Q :=
  tabulate 12 20 (fun y x =>
    if ((1 <=? y) && (y <=? 3) && (1 <=? x) && (x <=? 18))%nat then 1%Q
    else if ((6 <=? y) && (y <=? 8) && (1 <=? x) && (x <=? 18))%nat then (3 # 4)%Q
    else 0%Q).

(** * Proofs *)

(** ** List helpers *)

Lemma set_nth_length {A} (l : list A) i v : length (set_nth l i v) = length l.
Proof. revert i; induction l as [|h t IH]; intros [|i]; simpl; auto. Qed.

Lemma nth_set_nth_same {A} (l : list A) i v d :
  (i < length l)%nat -> nth i (set_nth l i v) d = v.
Proof.
  revert i; induction l as [|h t IH]; intros [|i] Hi; simpl in *; try lia; auto.
  apply IH; lia.
Qed.

Lemma nth_set_nth_other {A} (l : list A) i j v d :
  i <> j -> nth i (set_nth l j v) d = nth i l d.
Proof.
  revert i j; induction l as [|h t IH]; intros [|i] [|j] Hij; simpl; auto; try lia.
Qed.

Lemma fold_left_inv {A B} (P : A -> Prop) (f : A -> B -> A) (l : list B) (x : A) :
  (forall y b, In b l -> P y -> P (f y b)) -> P x -> P (fold_left f l x).
Proof.
  revert x; induction l as [|b l IH]; intros x Hf Hx; simpl; auto.
  apply IH; [intros y b' Hb; apply Hf; simpl; auto | apply Hf; simpl; auto].
Qed.

(** ** The four per-box lists of getDetBoxes_core grow together *)

Definition acc_ok (acc : core_acc) : Prop :=
  length (acc_det acc) = length (acc_mapper acc) /\
  length (acc_mapper acc) = length (acc_num_characters acc) /\
  length (acc_num_characters acc) = length (acc_avg_character_sizes acc).

Lemma getDetBoxes_step_ok G textmap text_score link_score labels stats tt acc k acc' :
  acc_ok acc ->
  getDetBoxes_step G textmap text_score link_score labels stats tt acc k = inl acc' ->
  acc_ok acc'.
Proof.
  unfold getDetBoxes_step, ret, raise; cbv zeta; intros Hok H.
  repeat match type of H with
  | (if ?c then _ else _) = _ => destruct c
  | (match ?m with Some _ => _ | None => _ end) = _ => destruct m
  end; inversion H; subst; auto.
  unfold acc_ok in *; simpl; rewrite !length_app; simpl; lia.
Qed.

Lemma getDetBoxes_loop_ok G textmap text_score link_score labels stats tt ks acc acc' :
  acc_ok acc ->
  getDetBoxes_loop G textmap text_score link_score labels stats tt ks acc = inl acc' ->
  acc_ok acc'.
Proof.
  revert acc; induction ks as [|k ks IH]; intros acc Hok H; simpl in H.
  - inversion H; subst; auto.
  - unfold bind in H.
    destruct (getDetBoxes_step G textmap text_score link_score labels stats tt acc k) as [a|e] eqn:E;
      [|discriminate].
    eapply IH; [eapply getDetBoxes_step_ok; eauto | exact H].
Qed.

Lemma link_words_length det avg : length (link_words det avg) = length det.
Proof.
  unfold link_words.
  apply (fold_left_inv (fun w => length w = length det)); [|apply repeat_length].
  intros y id1 _ Hy.
  apply (fold_left_inv (fun w => length w = length det)); auto.
  intros z id2 _ Hz.
  destruct (Nat.eqb id1 id2); auto.
  destruct (compare_boxes _ _); auto.
  rewrite set_nth_length; auto.
Qed.

Lemma getPoly_core_length G bs labels mapper linkmap :
  length (getPoly_core G bs labels mapper linkmap) = length bs.
Proof. unfold getPoly_core; rewrite length_map, length_seq; reflexivity. Qed.

Lemma getDetBoxes_core_inv G tm lm tt lt low c :
  getDetBoxes_core G tm lm tt lt low = inl c ->
  acc_ok {| acc_det := c_det c; acc_mapper := c_mapper c;
            acc_num_characters := c_num_characters c;
            acc_avg_character_sizes := c_avg_character_sizes c |} /\
  c_word_id c = link_words (c_det c) (c_avg_character_sizes c).
Proof.
  unfold getDetBoxes_core, raise, ret, bind; intros H.
  destruct (is_empty tm || is_empty lm); [discriminate|].
  destruct (broadcast2 _ _ _ _ _) as [comb|]; [|discriminate].
  match type of H with
  | match ?m with _ => _ end = _ => destruct m as [acc|e] eqn:L; [|discriminate]
  end.
  inversion H; subst; simpl; split; auto.
  apply getDetBoxes_loop_ok in L; [|repeat split].
  exact L.
Qed.

Definition word_id_ok (n : nat) (wid : list Z) : Prop :=
  length wid = n /\
  forall i, (i < n)%nat ->
    nth i wid (-1) = -1 \/
    (0 <= nth i wid (-1) < Z.of_nat n /\ nth i wid (-1) <> Z.of_nat i).

Lemma link_words_ok det avg : word_id_ok (length det) (link_words det avg).
Proof.
  unfold link_words.
  assert (Hn : (length (combine det avg) <= length det)%nat)
    by (rewrite length_combine; lia).
  apply fold_left_inv.
  - intros y id1 Hid1 Hy.
    apply in_seq in Hid1.
    apply fold_left_inv; auto.
    intros z id2 Hid2 [Hlen Hz].
    apply in_seq in Hid2.
    destruct (Nat.eqb id1 id2) eqn:E; [split; auto|].
    apply Nat.eqb_neq in E.
    destruct (compare_boxes _ _); [|split; auto].
    split; [rewrite set_nth_length; auto|].
    intros i Hi.
    destruct (Nat.eq_dec i id1) as [->|Hne].
    + rewrite nth_set_nth_same by lia. right; split; [lia|]. intro Heq; apply E; lia.
    + rewrite nth_set_nth_other by exact Hne. apply Hz; exact Hi.
  - split; [apply repeat_length|].
    intros i Hi; left. apply nth_repeat_lt; exact Hi.
Qed.

(** ** C1 *)

(** C1: every result record returned by getDetBoxes, with [poly] true or
    false, has lists boxes, mapper, num_characters, average_character_size,
    word_id and polys of one and the same length. *)
Theorem getDetBoxes_lengths_agree G textmap linkmap text_threshold link_threshold low_text poly r :
  getDetBoxes G textmap linkmap text_threshold link_threshold low_text poly = inl r ->
  length (boxes r) = length (mapper r) /\
  length (mapper r) = length (num_characters r) /\
  length (num_characters r) = length (average_character_size r) /\
  length (average_character_size r) = length (word_id r) /\
  length (word_id r) = length (polys r).
Proof.
  unfold getDetBoxes, bind, ret; intros H.
  destruct (getDetBoxes_core G textmap linkmap text_threshold link_threshold low_text) as [c|e] eqn:E;
    [|discriminate].
  apply getDetBoxes_core_inv in E as [[H1 [H2 H3]] Hw].
  inversion H; subst; simpl in *.
  rewrite Hw, link_words_length.
  destruct poly; [rewrite getPoly_core_length | rewrite repeat_length]; lia.
Qed.

Lemma getDetBoxes_lengths_agree_witness :
  match getDetBoxes G_axis rectA (zeros 16 32) (7 # 10) (4 # 10) (4 # 10) true with
  | inl r =>
      length (boxes r) = length (mapper r) /\
      length (mapper r) = length (num_characters r) /\
      length (num_characters r) = length (average_character_size r) /\
      length (average_character_size r) = length (word_id r) /\
      length (word_id r) = length (polys r)
  | inr _ => False
  end.
Proof.
  destruct (getDetBoxes G_axis rectA (zeros 16 32) (7 # 10) (4 # 10) (4 # 10) true) as [r|e] eqn:E.
  - exact (getDetBoxes_lengths_agree G_axis rectA (zeros 16 32) (7 # 10) (4 # 10) (4 # 10) true r E).
  - vm_compute in E; discriminate.
Defined.

(** ** C5 *)

(** C5: in every result record returned by getDetBoxes, each word_id entry
    at a box index i is -1 or an index into boxes different from i. *)
Theorem getDetBoxes_word_id_range G textmap linkmap text_threshold link_threshold low_text poly r :
  getDetBoxes G textmap linkmap text_threshold link_threshold low_text poly = inl r ->
  forall i, (i < length (boxes r))%nat ->
    nth i (word_id r) (-1) = -1 \/
    (0 <= nth i (word_id r) (-1) < Z.of_nat (length (boxes r)) /\
     nth i (word_id r) (-1) <> Z.of_nat i).
Proof.
  unfold getDetBoxes, bind, ret; intros H.
  destruct (getDetBoxes_core G textmap linkmap text_threshold link_threshold low_text) as [c|e] eqn:E;
    [|discriminate].
  apply getDetBoxes_core_inv in E as [_ Hw].
  inversion H; subst; simpl.
  rewrite Hw.
  apply link_words_ok.
Qed.

(** On the two text lines, box 0 links to box 1 (word_id [1; -1]) *)
Lemma getDetBoxes_word_id_range_witness :
  match getDetBoxes G_axis twoLines (zeros 12 20) (7 # 10) (4 # 10) (4 # 10) false with
  | inl r =>
      nth 0 (word_id r) (-1) = 1 /\ length (boxes r) = 2%nat /\
      (nth 0 (word_id r) (-1) = -1 \/
       (0 <= nth 0 (word_id r) (-1) < Z.of_nat (length (boxes r)) /\
        nth 0 (word_id r) (-1) <> Z.of_nat 0))
  | inr _ => False
  end.
Proof.
  destruct (getDetBoxes G_axis twoLines (zeros 12 20) (7 # 10) (4 # 10) (4 # 10) false) as [r|e] eqn:E.
  - assert (Hb : (0 < length (boxes r))%nat)
      by (revert E; vm_compute; intros E; inversion E; subst; simpl; lia).
    split; [revert E; vm_compute; intros E; inversion E; reflexivity|].
    split; [revert E; vm_compute; intros E; inversion E; reflexivity|].
    exact (getDetBoxes_word_id_range G_axis twoLines (zeros 12 20) (7 # 10) (4 # 10) (4 # 10) false r E 0 Hb).
  - vm_compute in E; discriminate.
Defined.

(** ** C2 *)

(** C2 (code_bug): on Scenario A (one isolated 30x14 rectangle of text
    score 1, all-zero link map) getDetBoxes returns one box with
    word_id [-1], but num_characters [2] instead of [1], and an average
    character size of 256 (the 32x16 image area over the two labels of
    cv2.connectedComponentsWithStats, background included) instead of the
    420-pixel area of the one sub-component. *)
Theorem scenarioA_num_characters G :
  match getDetBoxes G rectA (zeros 16 32) (7 # 10) (4 # 10) (4 # 10) false with
  | inl r =>
      length (boxes r) = 1%nat /\ word_id r = [-1] /\
      num_characters r = [2] /\
      Qeq_bool (nth 0 (average_character_size r) 0%Q) 256 = true
  | inr _ => False
  end.
Proof. vm_compute. repeat split; reflexivity. Qed.

(** ** Shapes *)

Lemma nrows_amap {A B} (f : A -> B) a : nrows (amap f a) = nrows a.
Proof. unfold nrows, amap; apply length_map. Qed.

Lemma ncols_amap {A B} (f : A -> B) a : ncols (amap f a) = ncols a.
Proof. destruct a; simpl; [reflexivity | apply length_map]. Qed.

Lemma shape_amap {A B} (f : A -> B) a : shape (amap f a) = shape a.
Proof. unfold shape; rewrite nrows_amap, ncols_amap; reflexivity. Qed.

Lemma shape_tabulate {A B} (a : arr A) (f : nat -> nat -> B) :
  shape (tabulate (nrows a) (ncols a) f) = shape a.
Proof.
  unfold shape, tabulate, nrows, ncols.
  destruct a as [|r a]; simpl; [reflexivity|].
  rewrite !length_map, !length_seq; reflexivity.
Qed.

Lemma is_empty_shape {A B} (a : arr A) (b : arr B) : shape a = shape b -> is_empty a = is_empty b.
Proof. unfold is_empty, shape; intros H; injection H as -> ->; reflexivity. Qed.

Lemma shape_eqb_neq s t : s <> t -> shape_eqb s t = false.
Proof.
  destruct s as [s1 s2], t as [t1 t2]; unfold shape_eqb; cbn [fst snd]; intros H.
  destruct (Nat.eqb_spec s1 t1), (Nat.eqb_spec s2 t2); subst; [contradiction|reflexivity..].
Qed.

Lemma bdim_same n : bdim n n = Some n.
Proof. unfold bdim; rewrite Nat.eqb_refl; reflexivity. Qed.

Lemma shape_eqb_refl s : shape_eqb s s = true.
Proof. unfold shape_eqb; rewrite !Nat.eqb_refl; reflexivity. Qed.

Lemma broadcast2_same {A B C} (dA : A) (dB : B) (f : A -> B -> C) a b :
  shape a = shape b -> exists c, broadcast2 dA dB f a b = Some c /\ shape c = shape a.
Proof.
  unfold shape; intros Hs; injection Hs as Hr Hc.
  unfold broadcast2; rewrite <- Hr, <- Hc, !bdim_same.
  eexists; split; [reflexivity|]. apply shape_tabulate.
Qed.

Lemma cc_labels_shape m : shape (cc_labels (connectedComponentsWithStats m)) = shape m.
Proof. apply shape_tabulate. Qed.

(** ** C3 *)

Lemma getDetBoxes_loop_index_error G textmap text_score link_score labels stats tt ks acc :
  shape_eqb (shape labels) (shape textmap) = false ->
  (exists k, In k ks /\ 10 <= CC_STAT_AREA (stat_at stats k)) ->
  getDetBoxes_loop G textmap text_score link_score labels stats tt ks acc = inr BooleanIndexError.
Proof.
  intros Hsh; revert acc; induction ks as [|k ks IH]; intros acc [k0 [Hin Ha]]; [destruct Hin|].
  cbn [getDetBoxes_loop]. unfold bind, getDetBoxes_step, ret, raise; cbv zeta.
  destruct (CC_STAT_AREA (stat_at stats k) <? 10) eqn:Ea.
  - apply IH. exists k0. split; [|exact Ha].
    destruct Hin as [<-|Hin]; [apply Z.ltb_lt in Ea; lia | exact Hin].
  - rewrite Hsh. reflexivity.
Qed.

(** C3 (amended): there is no explicit shape validation. An empty textmap
    or linkmap (no row or no column) makes cv2.threshold return None and
    the addition of the score maps raises TypeError; non-empty maps whose
    shapes are not numpy-broadcast-compatible make that addition raise
    ValueError; and when the shapes broadcast to a shape other than
    textmap's, the call raises IndexError at [textmap[labels == k]] as
    soon as a component of area at least 10 is found. *)
Theorem getDetBoxes_shape_errors G textmap linkmap text_threshold link_threshold low_text poly :
  (is_empty textmap || is_empty linkmap = true ->
   getDetBoxes G textmap linkmap text_threshold link_threshold low_text poly = inr NoneOperandError) /\
  (is_empty textmap || is_empty linkmap = false ->
   bdim (nrows textmap) (nrows linkmap) = None \/ bdim (ncols textmap) (ncols linkmap) = None ->
   getDetBoxes G textmap linkmap text_threshold link_threshold low_text poly = inr BroadcastError) /\
  (forall comb,
   is_empty textmap || is_empty linkmap = false ->
   broadcast2 0 0 (fun t l => Z.min 1 (Z.max 0 (t + l)))
     (cv2_threshold textmap low_text) (cv2_threshold linkmap link_threshold) = Some comb ->
   shape comb <> shape textmap ->
   (exists k, In k (map Z.of_nat (seq 1 (Z.to_nat (nLabels (connectedComponentsWithStats comb) - 1)))) /\
              10 <= CC_STAT_AREA (stat_at (cc_stats (connectedComponentsWithStats comb)) k)) ->
   getDetBoxes G textmap linkmap text_threshold link_threshold low_text poly = inr BooleanIndexError).
Proof.
  split; [|split].
  - intros He. unfold getDetBoxes, getDetBoxes_core, bind, raise. rewrite He. reflexivity.
  - intros He H.
    unfold getDetBoxes, getDetBoxes_core, bind, raise, broadcast2, cv2_threshold. rewrite He.
    rewrite !nrows_amap, !ncols_amap.
    destruct H as [H|H]; rewrite H; [reflexivity|].
    destruct (bdim (nrows textmap) (nrows linkmap)); reflexivity.
  - intros comb He Hb Hsh Hk.
    unfold getDetBoxes, getDetBoxes_core, bind. rewrite He. cbv zeta. rewrite Hb.
    rewrite getDetBoxes_loop_index_error; [reflexivity| |exact Hk].
    rewrite cc_labels_shape. apply shape_eqb_neq, Hsh.
Qed.

(** A 1x20 textmap of ones under a 12x20 all-zero linkmap: the score maps
    broadcast to 12x20, all foreground, one component of area 240 *)
Lemma getDetBoxes_shape_errors_witness :
  getDetBoxes G_axis (zeros 0 5) (zeros 0 5) (7 # 10) (4 # 10) (4 # 10) false = inr NoneOperandError /\
  getDetBoxes G_axis (zeros 2 2) (zeros 2 3) (7 # 10) (4 # 10) (4 # 10) false = inr BroadcastError /\
  getDetBoxes G_axis (tabulate 1 20 (fun _ _ => 1%Q)) (zeros 12 20) (7 # 10) (4 # 10) (4 # 10) false
    = inr BooleanIndexError.
Proof.
  split; [|split].
  - apply (getDetBoxes_shape_errors G_axis (zeros 0 5) (zeros 0 5) (7 # 10) (4 # 10) (4 # 10) false).
    reflexivity.
  - apply (getDetBoxes_shape_errors G_axis (zeros 2 2) (zeros 2 3) (7 # 10) (4 # 10) (4 # 10) false);
      [reflexivity | right; reflexivity].
  - apply (proj2 (proj2 (getDetBoxes_shape_errors G_axis (tabulate 1 20 (fun _ _ => 1%Q)) (zeros 12 20)
             (7 # 10) (4 # 10) (4 # 10) false)) (tabulate 12 20 (fun _ _ => 1))).
    + reflexivity.
    + vm_compute; reflexivity.
    + vm_compute; discriminate.
    + exists 1. split; [vm_compute; left; reflexivity | apply Z.leb_le; vm_compute; reflexivity].
Defined.

(** C3 (counterexample): a 1x32 linkmap with a 16x32 textmap is not
    rejected; it is broadcast and the call returns Scenario A's box. *)
Lemma shape_mismatch_broadcast_accepted :
  shape rectA <> shape (zeros 1 32) /\
  exists r, getDetBoxes G_axis rectA (zeros 1 32) (7 # 10) (4 # 10) (4 # 10) false = inl r /\
            length (boxes r) = 1%nat.
Proof.
  split; [vm_compute; discriminate|].
  eexists; split; [vm_compute; reflexivity | reflexivity].
Qed.

(** ** C4 *)

(** C4 (code_bug): for two 100x20 boxes stacked 5 pixels apart, the bottom
    edge of the upper box and the top edge of the lower box are parallel
    (slopes 0) with midpoints 5 apart, so the spec's test links the upper
    box to the lower one (word_id [1; -1]); compare_boxes mixes the two
    boxes in its slopes and takes the second midpoint over vertices j and k
    instead of k and l, finds no match, and word_id stays [-1; -1]. *)
Theorem stacked_boxes_not_linked :
  link_words [box_top; box_bottom] [0; 0]%Q = [-1; -1] /\
  link_words_spec [box_top; box_bottom] = [1; -1].
Proof. split; vm_compute; reflexivity. Qed.

(** ** C7 *)

Lemma getDetBoxes_step_total G textmap text_score link_score labels stats tt acc k :
  shape labels = shape textmap ->
  shape text_score = shape textmap ->
  shape link_score = shape textmap ->
  exists acc', getDetBoxes_step G textmap text_score link_score labels stats tt acc k = inl acc'.
Proof.
  intros Hl Ht Hk.
  unfold getDetBoxes_step, ret, raise; cbv zeta.
  destruct (CC_STAT_AREA _ <? 10); [eauto|].
  rewrite Hl, shape_eqb_refl; simpl negb; cbv iota.
  destruct (Qltb _ tt); [eauto|].
  destruct (broadcast2_same 0 0 (fun l t => (l =? 1) && (t =? 0)) link_score text_score)
    as [c [Hc Hs]]; [congruence|].
  rewrite Hc, Hs, Hk, shape_tabulate, shape_eqb_refl; simpl negb; cbv iota.
  eauto.
Qed.

Lemma getDetBoxes_loop_total G textmap text_score link_score labels stats tt ks acc :
  shape labels = shape textmap ->
  shape text_score = shape textmap ->
  shape link_score = shape textmap ->
  exists acc', getDetBoxes_loop G textmap text_score link_score labels stats tt ks acc = inl acc'.
Proof.
  intros Hl Ht Hk; revert acc; induction ks as [|k ks IH]; intros acc; simpl; [unfold ret; eauto|].
  destruct (getDetBoxes_step_total G textmap text_score link_score labels stats tt acc k Hl Ht Hk)
    as [a Ha].
  unfold bind; rewrite Ha; apply IH.
Qed.

(** C7 (amended): the thresholds are not validated; for a non-empty
    textmap and a linkmap of the same shape getDetBoxes returns a result
    for every value of text_threshold, link_threshold and low_text, in
    [0,1] or not. *)
Theorem getDetBoxes_any_thresholds G textmap linkmap text_threshold link_threshold low_text poly :
  shape textmap = shape linkmap ->
  is_empty textmap = false ->
  exists r, getDetBoxes G textmap linkmap text_threshold link_threshold low_text poly = inl r.
Proof.
  intros Hs He.
  assert (Hg : is_empty textmap || is_empty linkmap = false)
    by (rewrite <- (is_empty_shape _ _ Hs), He; reflexivity).
  unfold getDetBoxes, getDetBoxes_core, bind, ret. rewrite Hg. cbv zeta.
  destruct (broadcast2_same 0 0 (fun t l => Z.min 1 (Z.max 0 (t + l)))
              (cv2_threshold textmap low_text) (cv2_threshold linkmap link_threshold))
    as [comb [Hc Hcs]].
  { unfold cv2_threshold; rewrite !shape_amap; exact Hs. }
  rewrite Hc.
  assert (Ht : shape (cv2_threshold textmap low_text) = shape textmap) by apply shape_amap.
  destruct (getDetBoxes_loop_total G textmap (cv2_threshold textmap low_text)
              (cv2_threshold linkmap link_threshold) (cc_labels (connectedComponentsWithStats comb))
              (cc_stats (connectedComponentsWithStats comb)) text_threshold
              (map Z.of_nat (seq 1 (Z.to_nat (nLabels (connectedComponentsWithStats comb) - 1))))
              {| acc_det := []; acc_mapper := []; acc_num_characters := [];
                 acc_avg_character_sizes := [] |}) as [acc Hacc].
  - rewrite cc_labels_shape, Hcs; exact Ht.
  - exact Ht.
  - unfold cv2_threshold; rewrite shape_amap; symmetry; exact Hs.
  - rewrite Hacc. eauto.
Qed.

Lemma getDetBoxes_any_thresholds_witness :
  shape rectA = shape (zeros 16 32) /\ is_empty rectA = false /\
  exists r, getDetBoxes G_axis rectA (zeros 16 32) 2 (-1) (-1 # 2) false = inl r.
Proof.
  split; [reflexivity|]. split; [reflexivity|].
  apply getDetBoxes_any_thresholds; reflexivity.
Defined.

(** C7 (counterexample): low_text = -0.5, outside [0,1], is not rejected:
    every pixel passes the text threshold and the call returns one box. *)
Lemma low_text_out_of_range_accepted :
  exists r, getDetBoxes G_axis rectA (zeros 16 32) (7 # 10) (4 # 10) (-1 # 2) false = inl r /\
            length (boxes r) = 1%nat.
Proof. eexists; split; [vm_compute; reflexivity | reflexivity]. Qed.

(** ** End-cap search *)

Lemma endcap_loop_found G word_label first_pp last_pp grad_s grad_e half_char_h rs spp epp :
  existsb (fun r => Qle_bool max_r (r + 2 * step_r)) rs = true ->
  exists a b, endcap_loop G word_label first_pp last_pp grad_s grad_e half_char_h rs spp epp
              = (Some a, Some b).
Proof.
  revert spp epp; induction rs as [|r rs IH]; intros spp epp H; [discriminate|].
  cbn [endcap_loop].
  simpl in H; apply orb_true_iff in H as [Hr|Hrs].
  - destruct spp as [a|], epp as [b|]; rewrite ?Hr, ?orb_true_r; eauto.
  - destruct spp as [a|], epp as [b|];
      repeat match goal with |- context [if ?c then _ else _] => destruct c end;
      eauto.
Qed.

(** ** C10 *)

(** C10: the end-cap search of getPoly_core always finds both the start cap
    and the end cap, whatever the strip, the pivots, the gradients and the
    pixels cv2.line touches: the radius 1.7 of np.arange(0.5, 2.0, 0.2)
    meets r + 2 * step_r >= max_r, so the "boundary of polygon is not
    found" rejection is never taken. *)
Theorem endcap_always_found G word_label first_pp last_pp grad_s grad_e half_char_h :
  exists spp epp,
    endcap_loop G word_label first_pp last_pp grad_s grad_e half_char_h radii None None
    = (Some spp, Some epp).
Proof. apply endcap_loop_found. vm_compute. reflexivity. Qed.

(** ** C6 *)

Lemma all_some_length {A} (l : list (option A)) l' : all_some l = Some l' -> length l' = length l.
Proof.
  revert l'; induction l as [|[a|] l IH]; intros l' H; simpl in H; try discriminate.
  - inversion H; reflexivity.
  - destruct (all_some l) as [t|] eqn:E; [|discriminate].
    inversion H; subst; simpl; f_equal; apply IH; reflexivity.
Qed.

Lemma pivot_loop_pp_length seg_w cp s :
  length (pp (pivot_loop seg_w cp s)) = length (pp s).
Proof.
  revert s; induction cp as [|[[x sy] ey] cp IH]; intros s; [reflexivity|].
  cbn [pivot_loop].
  repeat match goal with |- context [if ?c then _ else _] => destruct c end;
    rewrite ?IH; simpl; rewrite ?set_nth_length; reflexivity.
Qed.

Lemma horizontal_pivots_length G cp_sec pps half_char_h :
  length (horizontal_pivots G cp_sec pps half_char_h) = length pps.
Proof.
  unfold horizontal_pivots; rewrite length_map, length_combine, length_seq; lia.
Qed.

Lemma small_edge_wh (q : Q) : (q < 81)%Q -> floor_sqrt q + 1 < 10.
Proof.
  intros Hq; unfold floor_sqrt.
  assert (Hf : Qfloor q < 81).
  { rewrite Zlt_Qlt. apply Qle_lt_trans with q; [apply Qfloor_le | exact Hq]. }
  assert (Hs : Z.sqrt (Qfloor q) <= Z.sqrt 80) by (apply Z.sqrt_le_mono; lia).
  change (Z.sqrt 80) with 8 in Hs. lia.
Qed.

(** C6 (amended): polygon fitting marks a box unfit when one of its edges
    box[0]-box[1], box[1]-box[2] is shorter than 9 (the source filters on
    int(length + 1) < 10), and when it does return a polygon it is the full
    14-point ring. *)
Theorem getPoly_box_size_filter G bx labels cur_label :
  ((dist2 (pt bx 0) (pt bx 1) < 81)%Q \/ (dist2 (pt bx 1) (pt bx 2) < 81)%Q ->
   getPoly_box G bx labels cur_label = None) /\
  (forall p, getPoly_box G bx labels cur_label = Some p -> length p = 14%nat).
Proof.
  split.
  - intros H. unfold getPoly_box, poly_wh.
    destruct H as [H|H]; apply small_edge_wh in H;
      [rewrite (proj2 (Z.ltb_lt _ _) H) | rewrite (proj2 (Z.ltb_lt _ _) H), orb_true_r];
      reflexivity.
  - intros p H. unfold getPoly_box in H.
    destruct (poly_wh bx) as [w h].
    destruct ((w <? 10) || (h <? 10)); [discriminate|].
    destruct (inv3 _) as [Minv|]; [|discriminate].
    destruct (top_bottom _ w h) as [cp max_len].
    destruct (Qltb _ _); [discriminate|].
    destruct (all_some (pp (pivot_loop _ cp pivot_init))) as [pps|] eqn:Epp; [|discriminate].
    destruct (Qltb _ _); [discriminate|].
    destruct (endcap_loop _ _ _ _ _ _ _ _ _ _) as [[spp|] [epp|]]; try discriminate.
    inversion H; subst.
    simpl length; rewrite !length_app; simpl length; rewrite !length_app.
    rewrite !length_map, length_rev, !horizontal_pivots_length.
    apply all_some_length in Epp. rewrite pivot_loop_pp_length in Epp.
    simpl in *. lia.
Qed.

Lemma getPoly_box_size_filter_witness :
  (dist2 (pt [(0, 0); (8, 0); (8, 20); (0, 20)]%Q 0) (pt [(0, 0); (8, 0); (8, 20); (0, 20)]%Q 1) < 81)%Q /\
  getPoly_box G_axis [(0, 0); (8, 0); (8, 20); (0, 20)]%Q labels_stroke 1 = None.
Proof.
  split; [reflexivity|].
  apply (getPoly_box_size_filter G_axis [(0, 0); (8, 0); (8, 20); (0, 20)]%Q labels_stroke 1).
  left; reflexivity.
Defined.

(** C6 (counterexample): the box [box_9x20] has a top edge of length 9,
    shorter than 10, yet its width int(9 + 1) = 10 passes the size filter
    and, for every choice of the library primitives, polygon fitting
    returns a polygon for it rather than the unfit marker. *)
Lemma box_9x20_fitted :
  (dist2 (pt box_9x20 0) (pt box_9x20 1) < 100)%Q /\
  forall G, getPoly_box G box_9x20 labels_stroke 1 <> None.
Proof.
  split; [reflexivity|].
  intros G. cbv -[endcap_loop].
  match goal with
  | |- context [endcap_loop ?g ?wl ?fp ?lp ?gs ?ge ?hc ?rs ?s ?t] =>
      destruct (endcap_loop_found g wl fp lp gs ge hc rs s t) as (a & b & Hab);
      [vm_compute; reflexivity | rewrite Hab; discriminate]
  end.
Qed.

(** ** C9 *)

Lemma getPoly_box_singular G bx labels cur_label :
  inv3 (getPerspectiveTransform bx (poly_tar (fst (poly_wh bx)) (snd (poly_wh bx)))) = None ->
  getPoly_box G bx labels cur_label = None.
Proof.
  unfold getPoly_box. destruct (poly_wh bx) as [w h]; simpl fst; simpl snd.
  intros H. destruct ((w <? 10) || (h <? 10)); [reflexivity|].
  rewrite H. reflexivity.
Qed.

Lemma getPoly_core_nth G bs labels mapper linkmap j :
  (j < length bs)%nat ->
  nth j (getPoly_core G bs labels mapper linkmap) None
  = getPoly_box G (nth j bs []) labels (nth j mapper 0).
Proof.
  intros Hj. unfold getPoly_core.
  rewrite (nth_indep _ None (getPoly_box G (nth 0 bs []) labels (nth 0 mapper 0)))
    by (rewrite length_map, length_seq; exact Hj).
  rewrite (map_nth (fun k => getPoly_box G (nth k bs []) labels (nth k mapper 0))).
  rewrite seq_nth by exact Hj. reflexivity.
Qed.

(** C9: when the perspective transform of box k is singular
    (np.linalg.inv raises), polygon fitting still returns one entry per
    box, entry k is the unfit marker None, and every other entry is the
    result of fitting that box on its own: the call goes on with the
    remaining boxes. *)
Theorem getPoly_core_singular_local G bs labels mapper linkmap k
    (Hk : (k < length bs)%nat)
    (Hsing : inv3 (getPerspectiveTransform (nth k bs [])
                     (poly_tar (fst (poly_wh (nth k bs []))) (snd (poly_wh (nth k bs []))))) = None) :
  length (getPoly_core G bs labels mapper linkmap) = length bs /\
  nth k (getPoly_core G bs labels mapper linkmap) None = None /\
  (forall j, (j < length bs)%nat -> j <> k ->
     nth j (getPoly_core G bs labels mapper linkmap) None
     = getPoly_box G (nth j bs []) labels (nth j mapper 0)).
Proof.
  split; [apply getPoly_core_length|].
  split.
  - rewrite getPoly_core_nth by exact Hk. apply getPoly_box_singular, Hsing.
  - intros j Hj _. apply getPoly_core_nth, Hj.
Qed.

Lemma getPoly_core_singular_local_witness :
  inv3 (getPerspectiveTransform box_flat
          (poly_tar (fst (poly_wh box_flat)) (snd (poly_wh box_flat)))) = None /\
  nth 0 (getPoly_core G_axis [box_flat; box_9x20] labels_stroke [1; 1] (zeros 25 12)) None = None.
Proof.
  assert (Hs : inv3 (getPerspectiveTransform box_flat
          (poly_tar (fst (poly_wh box_flat)) (snd (poly_wh box_flat)))) = None)
    by (vm_compute; reflexivity).
  split; [exact Hs|].
  exact (proj1 (proj2 (getPoly_core_singular_local G_axis [box_flat; box_9x20] labels_stroke [1; 1]
                         (zeros 25 12) 0 ltac:(simpl; lia) Hs))).
Defined.

(** ** C8 *)

(** C8 (code_bug): the unfit entries of [polys] are None beside point
    arrays, and np.array on such a list is ragged: adjustResultCoordinates
    raises ValueError on [None, [(1, 1)]] instead of passing None through.
    A list of point arrays of one length is scaled as the spec says, (1, 1)
    becoming (4, 4) with ratios (2, 2, 2), and the empty list is returned
    as it is. *)
Theorem adjustResultCoordinates_mixed_none_raises :
  adjustResultCoordinates [None; Some [(1, 1)%Q]] 2 2 2 = inr RaggedArrayError /\
  adjustResultCoordinates [Some [(1, 1)%Q]] 2 2 2 = inl [Some [(4, 4)%Q]] /\
  adjustResultCoordinates [None; None] 2 2 2 = inl [None; None] /\
  adjustResultCoordinates [] 2 2 2 = inl [].
Proof. split; [|split; [|split]]; vm_compute; reflexivity. Qed.

(** * Further properties of the code *)


Lemma split_dot_join s : join_dot (split_dot s) = s.
Proof.
  induction s as [|c s IH]; [reflexivity|].
  cbn [split_dot]. destruct (split_dot s) as [|r rs] eqn:E.
  - simpl in IH; subst s; reflexivity.
  - rewrite <- IH. destruct (Ascii.eqb c "."%char) eqn:Ec.
    + apply Ascii.eqb_eq in Ec; subst c. reflexivity.
    + destruct rs; reflexivity.
Qed.

Lemma od_set_new {V} (d : list (String.string * V)) k v :
  ~ In k (map fst d) -> od_set d k v = d ++ [(k, v)].
Proof.
  induction d as [|[k' v'] d IH]; intros H; [reflexivity|].
  simpl in *. destruct (String.eqb k' k) eqn:E.
  - apply String.eqb_eq in E. exfalso; auto.
  - rewrite IH; auto.
Qed.

Lemma fold_od_set_fresh {V} (f : String.string -> String.string) (l acc : list (String.string * V)) :
  NoDup (map fst acc ++ map (fun kv => f (fst kv)) l) ->
  fold_left (fun nd kv => od_set nd (f (fst kv)) (snd kv)) l acc
  = acc ++ map (fun kv => (f (fst kv), snd kv)) l.
Proof.
  revert acc; induction l as [|kv l IH]; intros acc H; simpl; [rewrite app_nil_r; reflexivity|].
  rewrite od_set_new.
  - rewrite IH, <- app_assoc; [reflexivity|].
    rewrite map_app, <- app_assoc. exact H.
  - intros Hin. simpl in H. apply NoDup_remove_2 in H. apply H, in_or_app; left; exact Hin.
Qed.

Lemma od_get_set {V} (d : list (String.string * V)) k v name :
  od_get (od_set d k v) name = if String.eqb k name then Some v else od_get d name.
Proof.
  induction d as [|[k' v'] d IH]; simpl.
  - reflexivity.
  - destruct (String.eqb k' k) eqn:E.
    + apply String.eqb_eq in E; subst k'. simpl. destruct (String.eqb k name); reflexivity.
    + simpl. rewrite IH. destruct (String.eqb k' name) eqn:E2; [|reflexivity].
      apply String.eqb_eq in E2; subst k'.
      destruct (String.eqb k name) eqn:E3; [|reflexivity].
      apply String.eqb_eq in E3; subst k. rewrite String.eqb_refl in E. discriminate.
Qed.

Lemma od_set_keys {V} (d : list (String.string * V)) k v :
  NoDup (map fst d) -> NoDup (map fst (od_set d k v)) /\
  (forall x, In x (map fst (od_set d k v)) <-> x = k \/ In x (map fst d)).
Proof.
  induction d as [|[k' v'] d IH]; intros H; simpl.
  - split; [constructor; [auto|constructor]|]. intros x; simpl; split; intros Hx; repeat destruct Hx as [Hx|Hx]; subst; auto.
  - inversion H as [|? ? Hn Hd]; subst.
    destruct (String.eqb k' k) eqn:E.
    + apply String.eqb_eq in E; subst k'. simpl. split; [exact H|]. intros x; split; intros Hx; repeat destruct Hx as [Hx|Hx]; subst; auto.
    + apply String.eqb_neq in E. destruct (IH Hd) as [Hd' Hi]. simpl. split.
      * constructor; [|exact Hd']. rewrite Hi. intros [->|Hx]; auto.
      * intros x. rewrite Hi. split; intros Hx; repeat destruct Hx as [Hx|Hx]; subst; auto.
Qed.

Lemma fold_od_set_get {V} (f : String.string * V -> String.string) (l acc : list (String.string * V)) :
  NoDup (map fst acc) ->
  NoDup (map fst (fold_left (fun nd kv => od_set nd (f kv) (snd kv)) l acc)) /\
  forall name, od_get (fold_left (fun nd kv => od_set nd (f kv) (snd kv)) l acc) name
               = fold_left (fun o kv => if String.eqb (f kv) name then Some (snd kv) else o) l (od_get acc name).
Proof.
  revert acc; induction l as [|kv l IH]; intros acc H; simpl; [auto|].
  destruct (IH (od_set acc (f kv) (snd kv))) as [H1 H2]; [apply od_set_keys, H|].
  split; [exact H1|]. intros name. rewrite H2, od_get_set. reflexivity.
Qed.

(** X1: when the first key of a non-empty state dict does not start with
    "module", copyStateDict returns the dict unchanged (same keys, values
    and order), provided its keys are distinct. *)
Theorem copyStateDict_plain {V} k0 (v0 : V) rest :
  String.prefix "module"%string k0 = false ->
  NoDup (map fst ((k0, v0) :: rest)) ->
  copyStateDict ((k0, v0) :: rest) = Some ((k0, v0) :: rest).
Proof.
  intros Hp Hd. unfold copyStateDict. rewrite Hp. cbn [skipn].
  rewrite (fold_od_set_fresh (fun k => join_dot (split_dot k))).
  - simpl. rewrite split_dot_join. f_equal. f_equal.
    induction rest as [|[k v] rest IH]; [reflexivity|]. simpl. rewrite split_dot_join. f_equal.
    apply IH. simpl in Hd |- *. inversion Hd as [|? ? Hn Hd']; subst.
    inversion Hd' as [|? ? Hn' Hd'']; subst. constructor; [|exact Hd''].
    intros Hin; apply Hn; simpl; auto.
  - change (NoDup (map (fun kv : String.string * V => join_dot (split_dot (fst kv))) ((k0, v0) :: rest))).
    replace (map (fun kv : String.string * V => join_dot (split_dot (fst kv))) ((k0, v0) :: rest))
      with (map fst ((k0, v0) :: rest)); [exact Hd|].
    apply map_ext. intros [k v]. simpl. symmetry. apply split_dot_join.
Qed.

(** X2: when the first key starts with "module", copyStateDict drops the
    first dot-separated component of every key, keeping values and order,
    provided the stripped keys are distinct. *)
Theorem copyStateDict_module {V} k0 (v0 : V) rest :
  String.prefix "module"%string k0 = true ->
  NoDup (map (fun kv => join_dot (skipn 1 (split_dot (fst kv)))) ((k0, v0) :: rest)) ->
  copyStateDict ((k0, v0) :: rest)
  = Some (map (fun kv => (join_dot (skipn 1 (split_dot (fst kv))), snd kv)) ((k0, v0) :: rest)).
Proof.
  intros Hp Hd. unfold copyStateDict. rewrite Hp.
  rewrite (fold_od_set_fresh (fun k => join_dot (skipn 1 (split_dot k)))); [reflexivity|].
  exact Hd.
Qed.

(** X3: the OrderedDict built by copyStateDict has distinct keys, and
    looking up a name gives the value of the last entry of the input whose
    stripped key equals that name (a later duplicate overwrites an earlier
    one), or nothing when no entry matches. *)
Theorem copyStateDict_lookup {V} k0 (v0 : V) rest nd :
  copyStateDict ((k0, v0) :: rest) = Some nd ->
  NoDup (map fst nd) /\
  forall name, od_get nd name =
    fold_left (fun o kv =>
      if String.eqb (join_dot (skipn (if String.prefix "module"%string k0 then 1%nat else 0%nat)
                                    (split_dot (fst kv)))) name
      then Some (snd kv) else o) ((k0, v0) :: rest) None.
Proof.
  unfold copyStateDict. cbv zeta. intros H. injection H as <-.
  destruct (fold_od_set_get (fun kv => join_dot (skipn (if String.prefix "module"%string k0 then 1%nat else 0%nat) (split_dot (fst kv))))
              ((k0, v0) :: rest) [] (NoDup_nil _)) as [A B].
  split; [exact A|]. intros name. rewrite B. reflexivity.
Qed.

Lemma copyStateDict_lookup_witness :
  copyStateDict [("module.a.x"%string, 1%nat); ("b.a.x"%string, 2%nat)] = Some [("a.x"%string, 2%nat)] /\
  od_get [("a.x"%string, 2%nat)] "a.x"%string = Some 2%nat.
Proof.
  assert (H : copyStateDict [("module.a.x"%string, 1%nat); ("b.a.x"%string, 2%nat)] = Some [("a.x"%string, 2%nat)])
    by reflexivity.
  split; [exact H|].
  rewrite (proj2 (copyStateDict_lookup _ _ _ _ H) "a.x"%string). reflexivity.
Defined.

Lemma copyStateDict_plain_witness :
  copyStateDict [("conv.weight"%string, 1%nat); ("conv.bias"%string, 2%nat)]
  = Some [("conv.weight"%string, 1%nat); ("conv.bias"%string, 2%nat)].
Proof.
  apply copyStateDict_plain; [reflexivity|].
  repeat constructor; simpl; intuition discriminate.
Defined.

Lemma copyStateDict_module_witness :
  copyStateDict [("module.conv.weight"%string, 1%nat); ("module.conv.bias"%string, 2%nat)]
  = Some [("conv.weight"%string, 1%nat); ("conv.bias"%string, 2%nat)].
Proof.
  exact (copyStateDict_module "module.conv.weight"%string 1%nat [("module.conv.bias"%string, 2%nat)]
           eq_refl ltac:(repeat constructor; simpl; intuition discriminate)).
Defined.


Lemma getDetBoxes_fields G tm lm tt lt low poly r :
  getDetBoxes G tm lm tt lt low poly = inl r ->
  exists c, getDetBoxes_core G tm lm tt lt low = inl c /\
    boxes r = c_det c /\ labels r = c_labels c /\ mapper r = c_mapper c /\
    num_characters r = c_num_characters c /\ average_character_size r = c_avg_character_sizes c /\
    word_id r = c_word_id c /\
    polys r = (if poly then getPoly_core G (c_det c) (c_labels c) (c_mapper c) lm
               else repeat None (length (c_det c))).
Proof.
  unfold getDetBoxes, bind, ret. intros H.
  destruct (getDetBoxes_core G tm lm tt lt low) as [c|e]; [|discriminate].
  injection H as <-. exists c; repeat split.
Qed.

Lemma getDetBoxes_step_mapper G tm ts ls labels stats tt acc k acc' :
  getDetBoxes_step G tm ts ls labels stats tt acc k = inl acc' ->
  acc_mapper acc' = acc_mapper acc ++ (if label_kept tm labels stats tt k then [k] else []).
Proof.
  unfold getDetBoxes_step, label_kept, ret, raise; cbv zeta; intros H.
  destruct (CC_STAT_AREA (stat_at stats k) <? 10); simpl in *.
  - injection H as <-; rewrite app_nil_r; reflexivity.
  - destruct (negb (shape_eqb _ _)); [discriminate|].
    destruct (Qltb _ tt); simpl in *.
    + injection H as <-; rewrite app_nil_r; reflexivity.
    + destruct (broadcast2 _ _ _ _ _); [|discriminate].
      destruct (negb (shape_eqb _ _)); [discriminate|].
      injection H as <-; reflexivity.
Qed.

Lemma getDetBoxes_loop_mapper G tm ts ls labels stats tt ks acc acc' :
  getDetBoxes_loop G tm ts ls labels stats tt ks acc = inl acc' ->
  acc_mapper acc' = acc_mapper acc ++ filter (label_kept tm labels stats tt) ks.
Proof.
  revert acc; induction ks as [|k ks IH]; intros acc H; simpl in H.
  - injection H as <-; rewrite app_nil_r; reflexivity.
  - unfold bind in H.
    destruct (getDetBoxes_step G tm ts ls labels stats tt acc k) as [a|e] eqn:E; [|discriminate].
    rewrite (IH a H), (getDetBoxes_step_mapper _ _ _ _ _ _ _ _ _ _ E), <- app_assoc.
    simpl. destruct (label_kept tm labels stats tt k); reflexivity.
Qed.

Lemma getDetBoxes_core_comb G tm lm tt lt low c :
  getDetBoxes_core G tm lm tt lt low = inl c ->
  exists comb,
    broadcast2 0 0 (fun t l => Z.min 1 (Z.max 0 (t + l))) (cv2_threshold tm low) (cv2_threshold lm lt) = Some comb /\
    c_labels c = cc_labels (connectedComponentsWithStats comb) /\
    c_mapper c = filter (label_kept tm (cc_labels (connectedComponentsWithStats comb))
                                    (cc_stats (connectedComponentsWithStats comb)) tt)
                        (map Z.of_nat (seq 1 (Z.to_nat (nLabels (connectedComponentsWithStats comb) - 1)))).
Proof.
  unfold getDetBoxes_core, bind, ret, raise. intros H.
  destruct (is_empty tm || is_empty lm); [discriminate|].
  destruct (broadcast2 _ _ _ _ _) as [comb|]; [|discriminate].
  exists comb; split; [reflexivity|].
  match type of H with
  | match ?m with _ => _ end = _ => destruct m as [acc|e] eqn:L; [|discriminate]
  end.
  injection H as <-. simpl. split; [reflexivity|].
  apply getDetBoxes_loop_mapper in L. exact L.
Qed.

(** X4: the mapper of getDetBoxes is exactly the list of labels 1 ..
    nLabels-1 of the combined score map, in increasing order, that pass
    the two filters (area at least 10, peak textmap value at least
    text_threshold); labels is the label image of that map. *)
Theorem getDetBoxes_mapper_kept G textmap linkmap text_threshold link_threshold low_text poly comb r :
  broadcast2 0 0 (fun t l => Z.min 1 (Z.max 0 (t + l)))
    (cv2_threshold textmap low_text) (cv2_threshold linkmap link_threshold) = Some comb ->
  getDetBoxes G textmap linkmap text_threshold link_threshold low_text poly = inl r ->
  labels r = cc_labels (connectedComponentsWithStats comb) /\
  mapper r = filter (label_kept textmap (labels r) (cc_stats (connectedComponentsWithStats comb)) text_threshold)
                    (map Z.of_nat (seq 1 (Z.to_nat (nLabels (connectedComponentsWithStats comb) - 1)))).
Proof.
  intros Hb H.
  destruct (getDetBoxes_fields _ _ _ _ _ _ _ _ H) as (c & Hc & _ & Hl & Hm & _).
  destruct (getDetBoxes_core_comb _ _ _ _ _ _ _ Hc) as (comb' & Hb' & Hl' & Hm').
  rewrite Hb in Hb'. injection Hb' as <-.
  rewrite Hl, Hm, Hl'. split; [reflexivity | exact Hm'].
Qed.

Lemma label_kept_mono tm labels stats tt1 tt2 k :
  (tt1 <= tt2)%Q -> label_kept tm labels stats tt2 k = true -> label_kept tm labels stats tt1 k = true.
Proof.
  unfold label_kept, Qltb; cbv zeta. intros Hle H.
  apply andb_true_iff in H as [H1 H2]. rewrite H1; simpl.
  rewrite negb_involutive in *. apply Qle_bool_iff in H2. apply Qle_bool_iff.
  eapply Qle_trans; eauto.
Qed.

(** X5: raising text_threshold (all else equal) keeps the same label image
    and can only remove labels from mapper, never add one. *)
Theorem getDetBoxes_text_threshold_mono G textmap linkmap tt1 tt2 link_threshold low_text poly r1 r2 :
  (tt1 <= tt2)%Q ->
  getDetBoxes G textmap linkmap tt1 link_threshold low_text poly = inl r1 ->
  getDetBoxes G textmap linkmap tt2 link_threshold low_text poly = inl r2 ->
  labels r2 = labels r1 /\ incl (mapper r2) (mapper r1).
Proof.
  intros Hle H1 H2.
  destruct (getDetBoxes_fields _ _ _ _ _ _ _ _ H1) as (c1 & Hc1 & _ & Hl1 & Hm1 & _).
  destruct (getDetBoxes_fields _ _ _ _ _ _ _ _ H2) as (c2 & Hc2 & _ & Hl2 & Hm2 & _).
  destruct (getDetBoxes_core_comb _ _ _ _ _ _ _ Hc1) as (comb1 & Hb1 & Hl1' & Hm1').
  destruct (getDetBoxes_core_comb _ _ _ _ _ _ _ Hc2) as (comb2 & Hb2 & Hl2' & Hm2').
  rewrite Hb1 in Hb2. injection Hb2 as <-.
  rewrite Hl1, Hl2, Hl1', Hl2', Hm1, Hm2, Hm1', Hm2'. split; [reflexivity|].
  intros k Hk. apply filter_In in Hk as [Hin Hkeep]. apply filter_In. split; [exact Hin|].
  eapply label_kept_mono; eauto.
Qed.

Lemma nth_map_seq {A} (g : nat -> A) n i d :
  nth i (map g (seq 0 n)) d = if (i <? n)%nat then g i else d.
Proof.
  destruct (Nat.ltb_spec i n) as [Hi|Hi].
  - rewrite (nth_indep _ d (g 0%nat)) by (rewrite length_map, length_seq; exact Hi).
    rewrite map_nth, seq_nth by exact Hi. reflexivity.
  - apply nth_overflow. rewrite length_map, length_seq. exact Hi.
Qed.

Lemma at2_tabulate {A} (d : A) h w f y x :
  at2 d (tabulate h w f) y x = if (y <? h)%nat && (x <? w)%nat then f y x else d.
Proof.
  unfold at2, tabulate. rewrite nth_map_seq.
  destruct (y <? h)%nat; simpl; [apply nth_map_seq | destruct x; reflexivity].
Qed.

Lemma nth_map_lt {A B} (f : A -> B) l i d d0 :
  (i < length l)%nat -> nth i (map f l) d = f (nth i l d0).
Proof.
  intros Hi. rewrite (nth_indep _ d (f d0)) by (rewrite length_map; exact Hi).
  apply map_nth.
Qed.

Lemma at2_threshold_low m t y x :
  Forall (Forall (fun v => v <= t)%Q) m -> at2 0 (cv2_threshold m t) y x = 0.
Proof.
  intros Hm. unfold at2, cv2_threshold, amap.
  destruct (Nat.ltb_spec y (length m)) as [Hy|Hy].
  - rewrite (nth_map_lt _ _ _ _ [] Hy).
    assert (Hr : Forall (fun v => v <= t)%Q (nth y m [])) by (rewrite Forall_forall in Hm; apply Hm, nth_In, Hy).
    destruct (Nat.ltb_spec x (length (nth y m []))) as [Hx|Hx].
    + rewrite (nth_map_lt _ _ _ _ 0%Q Hx).
      rewrite Forall_forall in Hr. specialize (Hr _ (nth_In _ 0%Q Hx)).
      unfold Qltb. apply Qle_bool_iff in Hr. rewrite Hr. reflexivity.
    + apply nth_overflow. rewrite length_map. exact Hx.
  - rewrite (nth_overflow (map (map (fun v => if Qltb t v then 1 else 0)) m) [] (n := y)) by (rewrite length_map; exact Hy).
    destruct x; reflexivity.
Qed.

Lemma foreground_blank m : (forall y x, at2 0 m y x = 0) -> foreground m = [].
Proof.
  intros Hm. unfold foreground, pixels_where.
  assert (Hf : forall y xs, filter (fun x => negb (at2 0 m y x =? 0)) xs = []).
  { intros y xs; induction xs as [|x xs IH]; simpl; [reflexivity|]. rewrite Hm; exact IH. }
  induction (seq 0 (nrows m)) as [|y ys IH]; [reflexivity|].
  simpl. rewrite Hf. exact IH.
Qed.

(** X6: when no textmap value exceeds low_text and no linkmap value
    exceeds link_threshold (non-empty maps of the same shape), getDetBoxes
    succeeds with all result lists empty. *)
Theorem getDetBoxes_blank G textmap linkmap text_threshold link_threshold low_text poly :
  shape textmap = shape linkmap ->
  is_empty textmap = false ->
  Forall (Forall (fun v => v <= low_text)%Q) textmap ->
  Forall (Forall (fun v => v <= link_threshold)%Q) linkmap ->
  exists r, getDetBoxes G textmap linkmap text_threshold link_threshold low_text poly = inl r /\
    boxes r = [] /\ mapper r = [] /\ num_characters r = [] /\ average_character_size r = [] /\
    word_id r = [] /\ polys r = [].
Proof.
  intros Hs He Ht Hl.
  assert (Hs' : shape (cv2_threshold textmap low_text) = shape (cv2_threshold linkmap link_threshold))
    by (unfold cv2_threshold; rewrite !shape_amap; exact Hs).
  destruct (broadcast2_same 0 0 (fun t l => Z.min 1 (Z.max 0 (t + l))) _ _ Hs') as [comb [Hb _]].
  assert (Hg : is_empty textmap || is_empty linkmap = false)
    by (rewrite <- (is_empty_shape _ _ Hs), He; reflexivity).
  assert (Hz : forall y x, at2 0 comb y x = 0).
  { intros y x. revert Hb. unfold broadcast2.
    repeat match goal with |- context [bdim ?a ?b] => destruct (bdim a b) end;
      intros Hb; try discriminate.
    injection Hb as <-. rewrite at2_tabulate.
    destruct (_ && _); [|reflexivity].
    rewrite !at2_threshold_low by assumption. reflexivity. }
  assert (Hfg : foreground comb = []) by (apply foreground_blank, Hz).
  unfold getDetBoxes, getDetBoxes_core, bind, ret. rewrite Hg, Hb.
  unfold connectedComponentsWithStats. rewrite Hfg. simpl.
  eexists; split; [reflexivity|]. simpl.
  repeat split; destruct poly; reflexivity.
Qed.

(** X7: for textmap and linkmap of the same shape, the labels array
    returned by getDetBoxes has the shape of textmap. *)
Theorem getDetBoxes_labels_shape G textmap linkmap text_threshold link_threshold low_text poly r :
  shape textmap = shape linkmap ->
  getDetBoxes G textmap linkmap text_threshold link_threshold low_text poly = inl r ->
  shape (labels r) = shape textmap.
Proof.
  intros Hs H.
  destruct (getDetBoxes_fields _ _ _ _ _ _ _ _ H) as (c & Hc & _ & Hl & _).
  destruct (getDetBoxes_core_comb _ _ _ _ _ _ _ Hc) as (comb & Hb & Hl' & _).
  assert (Hs' : shape (cv2_threshold textmap low_text) = shape (cv2_threshold linkmap link_threshold))
    by (unfold cv2_threshold; rewrite !shape_amap; exact Hs).
  destruct (broadcast2_same 0 0 (fun t l => Z.min 1 (Z.max 0 (t + l))) _ _ Hs') as [comb' [Hb' Hsc]].
  rewrite Hb in Hb'. injection Hb' as <-.
  rewrite Hl, Hl', cc_labels_shape, Hsc. unfold cv2_threshold. apply shape_amap.
Qed.

Lemma link_inner det id1 js w :
  (id1 < length w)%nat ->
  let f := fun word_id id2 =>
    if Nat.eqb id1 id2 then word_id
    else if compare_boxes (nth id1 det []) (nth id2 det []) then set_nth word_id id1 (Z.of_nat id2)
    else word_id in
  length (fold_left f js w) = length w /\
  (forall i, i <> id1 -> nth i (fold_left f js w) (-1) = nth i w (-1)) /\
  nth id1 (fold_left f js w) (-1) =
    fold_left (fun a id2 =>
      if Nat.eqb id1 id2 then a
      else if compare_boxes (nth id1 det []) (nth id2 det []) then Z.of_nat id2 else a)
      js (nth id1 w (-1)).
Proof.
  intros Hw f. revert w Hw; induction js as [|j js IH]; intros w Hw; simpl; [auto|].
  replace (f w j) with (if Nat.eqb id1 j then w
    else if compare_boxes (nth id1 det []) (nth j det []) then set_nth w id1 (Z.of_nat j) else w)
    by reflexivity.
  destruct (Nat.eqb id1 j); [apply IH; exact Hw|].
  destruct (compare_boxes _ _).
  - destruct (IH (set_nth w id1 (Z.of_nat j))) as (H1 & H2 & H3); [rewrite set_nth_length; exact Hw|].
    rewrite set_nth_length in H1. split; [exact H1|]. split.
    + intros i Hi. rewrite H2 by exact Hi. apply nth_set_nth_other, Hi.
    + rewrite H3, nth_set_nth_same by exact Hw. reflexivity.
  - apply IH; exact Hw.
Qed.

Lemma link_outer det n ids w :
  NoDup ids -> (forall id, In id ids -> (id < length w)%nat) ->
  let g := fun word_id id1 =>
    fold_left (fun word_id id2 =>
      if Nat.eqb id1 id2 then word_id
      else if compare_boxes (nth id1 det []) (nth id2 det []) then set_nth word_id id1 (Z.of_nat id2)
      else word_id) (seq 0 n) word_id in
  length (fold_left g ids w) = length w /\
  forall i, nth i (fold_left g ids w) (-1) =
    if existsb (Nat.eqb i) ids then
      fold_left (fun a id2 =>
        if Nat.eqb i id2 then a
        else if compare_boxes (nth i det []) (nth id2 det []) then Z.of_nat id2 else a)
        (seq 0 n) (nth i w (-1))
    else nth i w (-1).
Proof.
  intros Hnd Hids g. revert w Hids; induction ids as [|a ids IH]; intros w Hids; simpl; [auto|].
  inversion Hnd as [|? ? Ha Hnd']; subst.
  destruct (link_inner det a (seq 0 n) w) as (H1 & H2 & H3); [apply Hids; simpl; auto|].
  destruct (IH Hnd' (g w a)) as (H4 & H5).
  { intros id Hid. replace (length (g w a)) with (length w) by (symmetry; exact H1).
    apply Hids; simpl; auto. }
  split; [rewrite H4; exact H1|].
  intros i. rewrite H5. cbn [existsb].
  destruct (Nat.eqb_spec i a) as [->|Hne]; cbn [orb].
  - replace (existsb (Nat.eqb a) ids) with false.
    + exact H3.
    + symmetry. apply not_true_iff_false. intros He. apply existsb_exists in He as [x [Hx Hax]].
      apply Nat.eqb_eq in Hax; subst x. contradiction.
  - replace (nth i (g w a) (-1)) with (nth i w (-1)) by (symmetry; apply H2, Hne). reflexivity.
Qed.

Lemma link_words_nth det avg i :
  nth i (link_words det avg) (-1) =
    if (i <? length (combine det avg))%nat then
      fold_left (fun a id2 =>
        if Nat.eqb i id2 then a
        else if compare_boxes (nth i det []) (nth id2 det []) then Z.of_nat id2 else a)
        (seq 0 (length (combine det avg))) (-1)
    else -1.
Proof.
  unfold link_words; cbv zeta.
  destruct (link_outer det (length (combine det avg)) (seq 0 (length (combine det avg)))
              (repeat (-1) (length det))) as [_ H].
  - apply seq_NoDup.
  - intros id Hid. apply in_seq in Hid. rewrite repeat_length, length_combine in *. lia.
  - rewrite H, nth_repeat.
    replace (existsb (Nat.eqb i) (seq 0 (length (combine det avg)))) with (i <? length (combine det avg))%nat;
      [reflexivity|].
    destruct (Nat.ltb_spec i (length (combine det avg))) as [Hi|Hi]; symmetry.
    + apply existsb_exists. exists i. rewrite in_seq, Nat.eqb_refl. split; [lia|reflexivity].
    + apply not_true_iff_false. intros He. apply existsb_exists in He as [x [Hx Hix]].
      apply in_seq in Hx. apply Nat.eqb_eq in Hix. lia.
Qed.

Lemma last_link_spec (P : nat -> bool) i m init :
  let r := fold_left (fun a j => if Nat.eqb i j then a else if P j then Z.of_nat j else a) (seq 0 m) init in
  (r = init /\ forall j, (j < m)%nat -> j <> i -> P j = false) \/
  (exists j, r = Z.of_nat j /\ (j < m)%nat /\ j <> i /\ P j = true /\
     forall j', (j < j' < m)%nat -> j' <> i -> P j' = false).
Proof.
  cbv zeta. induction m as [|m IH].
  - left; split; [reflexivity | intros; lia].
  - rewrite seq_S, fold_left_app. cbn [fold_left]. rewrite Nat.add_0_l.
    destruct (Nat.eqb_spec i m) as [->|Hne].
    + destruct IH as [[H1 H2]|(j & H1 & H2 & H3 & H4 & H5)].
      * left; split; [exact H1|]. intros j Hj Hji. apply H2; lia.
      * right; exists j; split; [exact H1|]; split; [lia|]; split; [exact H3|]; split; [exact H4|].
        intros j' Hj' Hji. apply H5; lia.
    + destruct (P m) eqn:Pm.
      * right; exists m; split; [reflexivity|]; split; [lia|]; split; [congruence|]; split; [exact Pm|].
        intros; lia.
      * destruct IH as [[H1 H2]|(j & H1 & H2 & H3 & H4 & H5)].
        -- left; split; [exact H1|]. intros j Hj Hji.
           destruct (Nat.eq_dec j m) as [->|Hjm]; [exact Pm|]. apply H2; lia.
        -- right; exists j; split; [exact H1|]; split; [lia|]; split; [exact H3|]; split; [exact H4|].
           intros j' Hj' Hji.
           destruct (Nat.eq_dec j' m) as [->|Hjm]; [exact Pm|]. apply H5; lia.
Qed.

Lemma compare_boxes_below b1 b2 :
  compare_boxes b1 b2 = true -> (snd (centroid b1) < snd (centroid b2))%Q.
Proof.
  unfold compare_boxes; cbv zeta. destruct (Qltb _ _) eqn:E; [|discriminate].
  intros _. unfold Qltb in E. apply negb_true_iff in E.
  apply Qnot_le_lt. intros H. apply Qle_bool_iff in H. congruence.
Qed.

Lemma link_words_target det avg i j :
  nth i (link_words det avg) (-1) = Z.of_nat j ->
  (j < length (combine det avg))%nat /\ j <> i /\ compare_boxes (nth i det []) (nth j det []) = true.
Proof.
  rewrite link_words_nth. destruct (i <? length (combine det avg))%nat; [|lia].
  destruct (last_link_spec (fun j => compare_boxes (nth i det []) (nth j det [])) i
              (length (combine det avg)) (-1)) as [[H1 _]|(j' & H1 & H2 & H3 & H4 & _)];
    rewrite H1; intros H; [lia|].
  apply Nat2Z.inj in H; subst j'. auto.
Qed.

Lemma getDetBoxes_link_words G tm lm tt lt low poly r :
  getDetBoxes G tm lm tt lt low poly = inl r ->
  word_id r = link_words (boxes r) (average_character_size r) /\
  length (combine (boxes r) (average_character_size r)) = length (boxes r).
Proof.
  intros H.
  destruct (getDetBoxes_fields _ _ _ _ _ _ _ _ H) as (c & Hc & Hb & _ & _ & _ & Ha & Hw & _).
  destruct (getDetBoxes_core_inv _ _ _ _ _ _ _ Hc) as [[H1 [H2 H3]] H4]. simpl in *.
  rewrite Hw, Hb, Ha, H4. split; [reflexivity|].
  rewrite length_combine. lia.
Qed.

(** X8: word_id[i] is -1 exactly when compare_boxes(box_i, box_j) fails
    for every other box j; otherwise it is the largest index j <> i for
    which compare_boxes(box_i, box_j) holds. *)
Theorem getDetBoxes_word_id_last G textmap linkmap text_threshold link_threshold low_text poly r i :
  getDetBoxes G textmap linkmap text_threshold link_threshold low_text poly = inl r ->
  (i < length (boxes r))%nat ->
  (nth i (word_id r) (-1) = -1 /\
   forall j, (j < length (boxes r))%nat -> j <> i ->
     compare_boxes (nth i (boxes r) []) (nth j (boxes r) []) = false) \/
  (exists j, nth i (word_id r) (-1) = Z.of_nat j /\ (j < length (boxes r))%nat /\ j <> i /\
     compare_boxes (nth i (boxes r) []) (nth j (boxes r) []) = true /\
     forall j', (j < j' < length (boxes r))%nat -> j' <> i ->
       compare_boxes (nth i (boxes r) []) (nth j' (boxes r) []) = false).
Proof.
  intros H Hi.
  destruct (getDetBoxes_link_words _ _ _ _ _ _ _ _ H) as [Hw Hn].
  rewrite Hw, link_words_nth, Hn.
  destruct (Nat.ltb_spec i (length (boxes r))) as [_|Hge]; [|lia].
  apply (last_link_spec (fun j => compare_boxes (nth i (boxes r) []) (nth j (boxes r) []))).
Qed.

(** X9: when word_id[i] = j, the centroid of box i is strictly above that
    of box j (smaller y), so word_id[j] is never i: two boxes never link
    to each other. *)
Theorem getDetBoxes_word_id_below G textmap linkmap text_threshold link_threshold low_text poly r i j :
  getDetBoxes G textmap linkmap text_threshold link_threshold low_text poly = inl r ->
  nth i (word_id r) (-1) = Z.of_nat j ->
  (snd (centroid (nth i (boxes r) [])) < snd (centroid (nth j (boxes r) [])))%Q /\
  nth j (word_id r) (-1) <> Z.of_nat i.
Proof.
  intros H Hij.
  destruct (getDetBoxes_link_words _ _ _ _ _ _ _ _ H) as [Hw _].
  rewrite Hw in *.
  destruct (link_words_target _ _ _ _ Hij) as (_ & _ & Hc).
  apply compare_boxes_below in Hc. split; [exact Hc|].
  intros Hji. destruct (link_words_target _ _ _ _ Hji) as (_ & _ & Hc').
  apply compare_boxes_below in Hc'.
  apply (Qlt_irrefl (snd (centroid (nth i (boxes r) [])))).
  eapply Qlt_trans; eauto.
Qed.

Lemma getDetBoxes_word_id_below_witness :
  match getDetBoxes G_axis twoLines (zeros 12 20) (7 # 10) (4 # 10) (4 # 10) false with
  | inl r =>
      nth 0 (word_id r) (-1) = Z.of_nat 1 /\
      (snd (centroid (nth 0 (boxes r) [])) < snd (centroid (nth 1 (boxes r) [])))%Q /\
      nth 1 (word_id r) (-1) <> Z.of_nat 0
  | inr _ => False
  end.
Proof.
  destruct (getDetBoxes G_axis twoLines (zeros 12 20) (7 # 10) (4 # 10) (4 # 10) false) as [r|e] eqn:E.
  - assert (Hw : nth 0 (word_id r) (-1) = Z.of_nat 1)
      by (revert E; vm_compute; intros E; inversion E; subst; reflexivity).
    split; [exact Hw|].
    exact (getDetBoxes_word_id_below G_axis twoLines (zeros 12 20) (7 # 10) (4 # 10) (4 # 10) false r 0 1 E Hw).
  - vm_compute in E; discriminate.
Defined.

Lemma getDetBoxes_word_id_last_witness :
  match getDetBoxes G_axis twoLines (zeros 12 20) (7 # 10) (4 # 10) (4 # 10) false with
  | inl r =>
      (0 < length (boxes r))%nat /\
      ((nth 0 (word_id r) (-1) = -1 /\
        forall j, (j < length (boxes r))%nat -> j <> 0%nat ->
          compare_boxes (nth 0 (boxes r) []) (nth j (boxes r) []) = false) \/
       (exists j, nth 0 (word_id r) (-1) = Z.of_nat j /\ (j < length (boxes r))%nat /\ j <> 0%nat /\
          compare_boxes (nth 0 (boxes r) []) (nth j (boxes r) []) = true /\
          forall j', (j < j' < length (boxes r))%nat -> j' <> 0%nat ->
            compare_boxes (nth 0 (boxes r) []) (nth j' (boxes r) []) = false))
  | inr _ => False
  end.
Proof.
  destruct (getDetBoxes G_axis twoLines (zeros 12 20) (7 # 10) (4 # 10) (4 # 10) false) as [r|e] eqn:E.
  - assert (Hb : (0 < length (boxes r))%nat)
      by (revert E; vm_compute; intros E; inversion E; subst; simpl; lia).
    split; [exact Hb|].
    exact (getDetBoxes_word_id_last G_axis twoLines (zeros 12 20) (7 # 10) (4 # 10) (4 # 10) false r 0 E Hb).
  - vm_compute in E; discriminate.
Defined.

Lemma getDetBoxes_mapper_kept_witness :
  match broadcast2 0 0 (fun t l => Z.min 1 (Z.max 0 (t + l)))
          (cv2_threshold twoLines (4 # 10)) (cv2_threshold (zeros 12 20) (4 # 10)),
        getDetBoxes G_axis twoLines (zeros 12 20) (7 # 10) (4 # 10) (4 # 10) false with
  | Some comb, inl r =>
      mapper r = [1; 2] /\
      labels r = cc_labels (connectedComponentsWithStats comb) /\
      mapper r = filter (label_kept twoLines (labels r) (cc_stats (connectedComponentsWithStats comb)) (7 # 10))
                        (map Z.of_nat (seq 1 (Z.to_nat (nLabels (connectedComponentsWithStats comb) - 1))))
  | _, _ => False
  end.
Proof.
  destruct (broadcast2 0 0 (fun t l => Z.min 1 (Z.max 0 (t + l)))
          (cv2_threshold twoLines (4 # 10)) (cv2_threshold (zeros 12 20) (4 # 10))) as [comb|] eqn:Eb;
    [|vm_compute in Eb; discriminate].
  destruct (getDetBoxes G_axis twoLines (zeros 12 20) (7 # 10) (4 # 10) (4 # 10) false) as [r|e] eqn:E;
    [|vm_compute in E; discriminate].
  split; [revert E; vm_compute; intros E; inversion E; subst; reflexivity|].
  exact (getDetBoxes_mapper_kept G_axis twoLines (zeros 12 20) (7 # 10) (4 # 10) (4 # 10) false comb r Eb E).
Defined.

Lemma getDetBoxes_text_threshold_mono_witness :
  match getDetBoxes G_axis twoLines (zeros 12 20) (7 # 10) (4 # 10) (4 # 10) false,
        getDetBoxes G_axis twoLines (zeros 12 20) (9 # 10) (4 # 10) (4 # 10) false with
  | inl r1, inl r2 =>
      mapper r1 = [1; 2] /\ mapper r2 = [1] /\ labels r2 = labels r1 /\ incl (mapper r2) (mapper r1)
  | _, _ => False
  end.
Proof.
  destruct (getDetBoxes G_axis twoLines (zeros 12 20) (7 # 10) (4 # 10) (4 # 10) false) as [r1|e] eqn:E1;
    [|vm_compute in E1; discriminate].
  destruct (getDetBoxes G_axis twoLines (zeros 12 20) (9 # 10) (4 # 10) (4 # 10) false) as [r2|e] eqn:E2;
    [|vm_compute in E2; discriminate].
  split; [revert E1; vm_compute; intros E1; inversion E1; subst; reflexivity|].
  split; [revert E2; vm_compute; intros E2; inversion E2; subst; reflexivity|].
  refine (getDetBoxes_text_threshold_mono G_axis twoLines (zeros 12 20) (7 # 10) (9 # 10) (4 # 10) (4 # 10) false r1 r2 _ E1 E2).
  vm_compute; discriminate.
Defined.

Lemma getDetBoxes_blank_witness :
  is_empty (zeros 2 3) = false /\
  Forall (Forall (fun v => v <= 0)%Q) (zeros 2 3) /\
  exists r, getDetBoxes G_axis (zeros 2 3) (zeros 2 3) 0 0 0 true = inl r /\
    boxes r = [] /\ mapper r = [] /\ num_characters r = [] /\ average_character_size r = [] /\
    word_id r = [] /\ polys r = [].
Proof.
  assert (Hz : Forall (Forall (fun v => v <= 0)%Q) (zeros 2 3))
    by (vm_compute; repeat constructor; discriminate).
  split; [reflexivity|]. split; [exact Hz|].
  exact (getDetBoxes_blank G_axis (zeros 2 3) (zeros 2 3) 0 0 0 true eq_refl eq_refl Hz Hz).
Defined.

Lemma getDetBoxes_labels_shape_witness :
  match getDetBoxes G_axis twoLines (zeros 12 20) (7 # 10) (4 # 10) (4 # 10) true with
  | inl r => shape (labels r) = (12%nat, 20%nat)
  | inr _ => False
  end.
Proof.
  destruct (getDetBoxes G_axis twoLines (zeros 12 20) (7 # 10) (4 # 10) (4 # 10) true) as [r|e] eqn:E;
    [|vm_compute in E; discriminate].
  exact (getDetBoxes_labels_shape G_axis twoLines (zeros 12 20) (7 # 10) (4 # 10) (4 # 10) true r eq_refl E).
Defined.


Lemma skipn_cons_nth {A} (L : list A) i v t d :
  skipn i L = v :: t -> nth i L d = v /\ skipn (S i) L = t /\ (i < length L)%nat.
Proof.
  revert i; induction L as [|h L IH]; intros [|i] H; simpl in *; try discriminate.
  - injection H as -> ->. split; [reflexivity|]. split; [reflexivity|lia].
  - destruct (IH i H) as (H1 & H2 & H3). split; [exact H1|]. split; [exact H2|lia].
Qed.

Lemma argmin_aux_spec (L : list Q) t i best bv :
  skipn i L = t -> (best < i)%nat -> (i <= length L)%nat -> bv = nth best L 0%Q ->
  (forall k, (k < i)%nat -> (bv <= nth k L 0)%Q) ->
  (forall k, (k < best)%nat -> (bv < nth k L 0)%Q) ->
  (argmin_aux t i best bv < length L)%nat /\
  (forall k, (k < length L)%nat -> (nth (argmin_aux t i best bv) L 0 <= nth k L 0)%Q) /\
  (forall k, (k < argmin_aux t i best bv)%nat -> (nth (argmin_aux t i best bv) L 0 < nth k L 0)%Q).
Proof.
  revert i best bv; induction t as [|v t IH]; intros i best bv Hs Hb Hi Hbv Hmin Hfirst; simpl.
  - assert (Hl : (length L <= i)%nat).
    { destruct (Nat.le_gt_cases (length L) i) as [H|H]; [exact H|].
      rewrite <- (firstn_skipn i L) in H. rewrite length_app, Hs, length_firstn in H. simpl in H. lia. }
    split; [lia|]. split.
    + intros k Hk. rewrite <- Hbv. apply Hmin. lia.
    + intros k Hk. rewrite <- Hbv. apply Hfirst. exact Hk.
  - destruct (skipn_cons_nth L i v t 0%Q Hs) as (H1 & H2 & H3).
    destruct (Qltb v bv) eqn:E.
    + unfold Qltb in E. apply negb_true_iff in E.
      assert (Hlt : (v < bv)%Q) by (apply Qnot_le_lt; intros Hc; apply Qle_bool_iff in Hc; congruence).
      apply IH; [exact H2 | lia | lia | symmetry; exact H1 | |].
      * intros k Hk.
        destruct (Nat.eq_dec k i) as [->|Hne]; [rewrite H1; apply Qle_refl|].
        apply Qle_trans with bv; [apply Qlt_le_weak, Hlt | apply Hmin; lia].
      * intros k Hk. apply Qlt_le_trans with bv; [exact Hlt | apply Hmin; exact Hk].
    + apply IH; [exact H2 | lia | lia | exact Hbv | | exact Hfirst].
      intros k Hk. unfold Qltb in E. apply negb_false_iff, Qle_bool_iff in E.
      destruct (Nat.eq_dec k i) as [->|Hne]; [rewrite H1; exact E|]. apply Hmin; lia.
Qed.

Lemma argmin_spec (L : list Q) :
  L <> [] -> (argmin L < length L)%nat /\
  (forall k, (k < length L)%nat -> (nth (argmin L) L 0 <= nth k L 0)%Q) /\
  (forall k, (k < argmin L)%nat -> (nth (argmin L) L 0 < nth k L 0)%Q).
Proof.
  destruct L as [|v t]; [congruence|]. intros _. unfold argmin.
  apply argmin_aux_spec; simpl; auto; try lia.
  intros k Hk. assert (k = 0%nat) by lia; subst. apply Qle_refl.
Qed.

(** X11: for a 4-point box, sort_box returns a cyclic rotation of the
    points (a permutation of them that keeps their cyclic order). The
    rotation starts either at the point a = argmin of the y values, which
    is the first point of least y (every point before it has a strictly
    larger y, none after it a smaller one), or at the point just before
    it; so that top-most point comes first or second in the result. *)
Theorem sort_box_rotation G b :
  length b = 4%nat ->
  Permutation (sort_box G b) b /\
  exists a t, a = argmin (map snd b) /\ (a < 4)%nat /\
    (forall i, (i < 4)%nat -> (snd (pt b a) <= snd (pt b i))%Q) /\
    (forall i, (i < a)%nat -> (snd (pt b a) < snd (pt b i))%Q) /\
    (t = a \/ t = (a + 3) mod 4)%nat /\
    (forall i, (i < 4)%nat -> pt (sort_box G b) i = pt b ((i + t) mod 4)) /\
    (pt (sort_box G b) 0 = pt b a \/ pt (sort_box G b) 1 = pt b a).
Proof.
  intros Hb. unfold sort_box; cbv zeta.
  destruct (argmin_spec (map snd b)) as (Ha & Hmin & Hfirst); [destruct b; simpl in *; congruence|].
  assert (Hl : length (map snd b) = 4%nat) by (rewrite length_map; exact Hb).
  rewrite Hl in Ha, Hmin.
  set (a := argmin (map snd b)) in *.
  set (t := if Qltb _ _ then a else ((a + 3) mod 4)%nat).
  split.
  - eapply Permutation_trans; [apply Permutation_app_comm|]. rewrite firstn_skipn. apply Permutation_refl.
  - exists a, t. split; [reflexivity|]. split; [exact Ha|]. split; [|split].
    + intros i Hi. specialize (Hmin i Hi). unfold pt.
      rewrite <- !(map_nth snd b (0%Q, 0%Q)). exact Hmin.
    + intros i Hi. specialize (Hfirst i Hi). unfold pt.
      rewrite <- !(map_nth snd b (0%Q, 0%Q)). exact Hfirst.
    + assert (Ht : (t < 4)%nat /\ (t = a \/ t = (a + 3) mod 4)%nat).
      { unfold t. destruct (Qltb _ _); split; auto. apply Nat.mod_upper_bound; lia. }
      destruct Ht as [Ht Hta]. split; [exact Hta|].
      clearbody t a. clear Hmin Hfirst Hl.
      destruct b as [|p0 [|p1 [|p2 [|p3 [|]]]]]; simpl in Hb; try discriminate.
      split.
      * intros i Hi.
        destruct t as [|[|[|[|t]]]]; try lia; destruct i as [|[|[|[|i]]]]; try lia; reflexivity.
      * destruct Hta as [E|E]; subst t; [left|right];
          destruct a as [|[|[|[|a]]]]; try lia; reflexivity.
Qed.

Lemma sort_box_rotation_witness :
  length [(0, 10); (0, 0); (40, 0); (40, 10)]%Q = 4%nat /\
  sort_box G_axis [(0, 10); (0, 0); (40, 0); (40, 10)]%Q = [(0, 0); (40, 0); (40, 10); (0, 10)]%Q /\
  Permutation (sort_box G_axis [(0, 10); (0, 0); (40, 0); (40, 10)]%Q) [(0, 10); (0, 0); (40, 0); (40, 10)]%Q.
Proof.
  split; [reflexivity|]. split; [vm_compute; reflexivity|].
  exact (proj1 (sort_box_rotation G_axis [(0, 10); (0, 0); (40, 0); (40, 10)]%Q eq_refl)).
Defined.

Lemma Qred_eq (q : Q) : (Qred q == q)%Q.
Proof. apply Qred_correct. Qed.

(** X12: warpCoord with the inverse matrix computed by np.linalg.inv
    undoes warpCoord with the matrix, for any point whose third
    homogeneous coordinate under the matrix is nonzero. *)
Theorem warpCoord_inv3 M Minv p :
  inv3 M = Some Minv ->
  ~ (m3 M 6 * fst p + m3 M 7 * snd p + m3 M 8 == 0)%Q ->
  (fst (warpCoord Minv (warpCoord M p)) == fst p /\ snd (warpCoord Minv (warpCoord M p)) == snd p)%Q.
Proof.
  intros H Hw. unfold inv3 in H.
  destruct (Qeq_bool (Qred (det3 M)) 0) eqn:Ed; [discriminate|].
  pose proof (f_equal (fun o => match o with Some m => m | None => [] end) H) as HM.
  cbv beta iota in HM. subst Minv.
  assert (Hd : ~ (det3 M == 0)%Q).
  { intros Hc. apply Qeq_bool_neq in Ed. apply Ed. rewrite Qred_eq. exact Hc. }
  destruct p as [x y]. cbn [fst snd] in Hw.
  unfold warpCoord. cbn [fst snd m3 nth map]. rewrite !Qred_eq.
  unfold det3 in *. unfold m3 in *.
  set (a := nth 0 M 0%Q) in *. set (b := nth 1 M 0%Q) in *. set (c := nth 2 M 0%Q) in *.
  set (d := nth 3 M 0%Q) in *. set (e := nth 4 M 0%Q) in *. set (f := nth 5 M 0%Q) in *.
  set (g := nth 6 M 0%Q) in *. set (h := nth 7 M 0%Q) in *. set (i := nth 8 M 0%Q) in *.
  set (D := (a * (e * i - f * h) - b * (d * i - f * g) + c * (d * h - e * g))%Q) in *.
  set (o2 := (g * x + h * y + i)%Q) in *.
  assert (Hthird : ((d * h - e * g) / D * ((a * x + b * y + c) / o2) +
                    (b * g - a * h) / D * ((d * x + e * y + f) / o2) +
                    (a * e - b * d) / D == 1 / o2)%Q).
  { unfold D, o2 in *. field. split; assumption. }
  split.
  - rewrite Hthird. unfold D, o2 in *. field; tauto.
  - rewrite Hthird. unfold D, o2 in *. field; tauto.
Qed.

Lemma warpCoord_inv3_witness :
  inv3 [2; 1; 0; 0; 3; 1; 1; 0; 1]%Q = Some [3 # 7; -1 # 7; 1 # 7; 1 # 7; 2 # 7; -2 # 7; -3 # 7; 1 # 7; 6 # 7]%Q /\
  (fst (warpCoord [3 # 7; -1 # 7; 1 # 7; 1 # 7; 2 # 7; -2 # 7; -3 # 7; 1 # 7; 6 # 7]%Q
          (warpCoord [2; 1; 0; 0; 3; 1; 1; 0; 1]%Q (4, 5)%Q)) == 4 /\
   snd (warpCoord [3 # 7; -1 # 7; 1 # 7; 1 # 7; 2 # 7; -2 # 7; -3 # 7; 1 # 7; 6 # 7]%Q
          (warpCoord [2; 1; 0; 0; 3; 1; 1; 0; 1]%Q (4, 5)%Q)) == 5)%Q.
Proof.
  split; [vm_compute; reflexivity|].
  apply (warpCoord_inv3 [2; 1; 0; 0; 3; 1; 1; 0; 1]%Q _ (4, 5)%Q); [vm_compute; reflexivity|].
  vm_compute. discriminate.
Defined.


Lemma seg_boundary_lt (n : nat) (x w : Z) :
  0 < w -> x < w ->
  Qle_bool (inject_Z (Z.of_nat (n + 1)) * (inject_Z w / inject_Z (Z.of_nat tot_seg))) (inject_Z x) = true ->
  (S n < tot_seg)%nat.
Proof.
  intros Hw Hx H. apply Qle_bool_iff in H.
  unfold Qle, Qdiv, Qmult, Qinv, inject_Z in H. cbn [tot_seg num_cp Qnum Qden Z.of_nat] in H.
  simpl in H. unfold tot_seg, num_cp. nia.
Qed.

Lemma pivot_loop_seg_lt w cp s :
  Forall (fun e => 0 <= fst (fst e) < w) cp -> (seg_num s < tot_seg)%nat ->
  (seg_num (pivot_loop (inject_Z w / inject_Z (Z.of_nat tot_seg)) cp s) < tot_seg)%nat.
Proof.
  revert s; induction cp as [|[[x sy] ey] cp IH]; intros s Hcp Hs; [exact Hs|].
  inversion Hcp as [|? ? Hx Hcp']; subst. cbn [fst] in Hx.
  cbn [pivot_loop].
  destruct (Qle_bool _ _ && _)%bool eqn:Eb.
  - destruct (num_sec s =? 0); [exact Hs|]. cbn [andb].
    assert (Hn : (S (seg_num s) < tot_seg)%nat).
    { apply andb_true_iff in Eb as [Eb _].
      apply (seg_boundary_lt (seg_num s) x w); [lia | apply Hx | exact Eb]. }
    cbn [seg_num].
    destruct (Nat.even _); [apply IH; auto|].
    destruct (_ <? _); apply IH; auto.
  - cbn [andb].
    destruct (Nat.even _); [apply IH; auto|].
    destruct (_ <? _); apply IH; auto.
Qed.

Lemma top_bottom_cols (word_label : arr Z) (w h : Z) :
  Forall (fun e => 0 <= fst (fst e) < w) (fst (top_bottom word_label w h)).
Proof.
  unfold top_bottom.
  apply (fold_left_inv (fun st => Forall (fun e => 0 <= fst (fst e) < w) (fst st))); [|constructor].
  intros st i Hi Hst. apply in_seq in Hi.
  destruct (_ <? 2)%nat; [exact Hst|]. cbn [fst].
  apply Forall_app; split; [exact Hst|]. constructor; [cbn [fst]; lia | constructor].
Qed.

(** X13: in getPoly_core, the pivot-point loop run over the columns found
    by the top/bottom scan ends with seg_num below tot_seg = 11, the length
    of cp_section, for any word label image, width and height. *)
Theorem pivot_loop_seg_num_bound (word_label : arr Z) (w h : Z) :
  (seg_num (pivot_loop (inject_Z w / inject_Z (Z.of_nat tot_seg))
              (fst (top_bottom word_label w h)) pivot_init) < tot_seg)%nat.
Proof.
  apply pivot_loop_seg_lt; [apply top_bottom_cols | cbn; lia].
Qed.


Lemma filter_length_compl {A} (f : A -> bool) (l : list A) :
  (length (filter f l) + length (filter (fun a => negb (f a)) l) = length l)%nat.
Proof. induction l as [|a l IH]; simpl; [reflexivity|]. destruct (f a); simpl; lia. Qed.


Lemma pixels_where_compl (m : arr Z) ys :
  (length (flat_map (fun y => map (fun x => (Z.of_nat y, Z.of_nat x))
             (filter (fun x => negb (at2 0%Z m y x =? 0)%Z) (seq 0 (ncols m)))) ys) +
   length (flat_map (fun y => map (fun x => (Z.of_nat y, Z.of_nat x))
             (filter (fun x => at2 0%Z m y x =? 0)%Z (seq 0 (ncols m)))) ys)
   = length ys * ncols m)%nat.
Proof.
  induction ys as [|y ys IH]; simpl; [reflexivity|].
  rewrite !length_app, !length_map.
  pose proof (filter_length_compl (fun x => negb (at2 0 m y x =? 0)) (seq 0 (ncols m))) as H.
  rewrite length_seq in H.
  replace (filter (fun a => negb (negb (at2 0 m y a =? 0))) (seq 0 (ncols m)))
    with (filter (fun x => at2 0 m y x =? 0) (seq 0 (ncols m))) in H
    by (apply filter_ext; intros; rewrite negb_involutive; reflexivity).
  lia.
Qed.

Lemma fg_bg_length m :
  (length (foreground m) + length (pixels_where (fun v => v =? 0)%Z m) = nrows m * ncols m)%nat.
Proof.
  unfold foreground, pixels_where. rewrite pixels_where_compl, length_seq. reflexivity.
Qed.

Lemma partition_length {A} (f : A -> bool) (l : list A) :
  (length (fst (partition f l)) + length (snd (partition f l)) = length l)%nat.
Proof.
  induction l as [|a l IH]; simpl; [reflexivity|].
  destruct (partition f l) as [l1 l2]. destruct (f a); simpl in *; lia.
Qed.

Lemma flood_length fuel fr rest comp :
  (length (fst (flood fuel fr rest comp)) + length (snd (flood fuel fr rest comp))
   = length comp + length rest)%nat.
Proof.
  revert fr rest comp; induction fuel as [|f IH]; intros fr rest comp; simpl; [reflexivity|].
  destruct fr as [|p fr]; [reflexivity|].
  pose proof (partition_length (adj4 p) rest) as Hp.
  destruct (partition (adj4 p) rest) as [nb rest'] eqn:E. cbn [fst snd] in Hp.
  rewrite IH, length_app. lia.
Qed.

Lemma components_of_length fuel pts :
  (length pts < fuel)%nat ->
  list_sum (map (@length pixel) (components_of fuel pts)) = length pts.
Proof.
  revert pts; induction fuel as [|f IH]; intros pts Hf; [lia|].
  destruct pts as [|p rest]; [reflexivity|]. cbn [components_of].
  pose proof (flood_length (S (length (p :: rest))) [p] rest [p]) as Hl.
  destruct (flood _ [p] rest [p]) as [c rest'] eqn:E. cbn [fst snd length] in Hl.
  cbn [map]. change (list_sum (length c :: ?l)) with (length c + list_sum l)%nat. rewrite IH; [cbn [length]; lia|].
  assert (Hc : (1 <= length c)%nat).
  { clear -E. revert E. generalize (S (length (p :: rest))) as n.
    assert (Hg : forall n fr rest comp, (1 <= length comp)%nat ->
              (1 <= length (fst (flood n fr rest comp)))%nat).
    { induction n as [|n IHn]; intros fr rs comp Hc; simpl; [exact Hc|].
      destruct fr as [|q fr]; [exact Hc|].
      destruct (partition (adj4 q) rs) as [nb rs'].
      apply IHn. rewrite length_app. lia. }
    intros n E. pose proof (Hg n [p] rest [p] (le_n 1)) as H. rewrite E in H. exact H. }
  cbn [length] in Hf. lia.
Qed.

Lemma fold_Qplus_shift (l : list Q) (a : Q) :
  (fold_left Qplus l a == a + fold_left Qplus l 0)%Q.
Proof.
  revert a; induction l as [|b l IH]; intros a; simpl; [ring|].
  rewrite IH, (IH (0 + b)%Q). ring.
Qed.

Lemma area_sum (cs : list (list pixel)) :
  (fold_left Qplus (map (fun s => inject_Z (CC_STAT_AREA s)) (map stat_of cs)) 0
   == inject_Z (Z.of_nat (list_sum (map (@length pixel) cs))))%Q.
Proof.
  induction cs as [|c cs IH]; [reflexivity|].
  cbn [map fold_left]. change (list_sum (length c :: ?l)) with (length c + list_sum l)%nat. rewrite fold_Qplus_shift, IH.
  unfold stat_of; cbn [CC_STAT_AREA].
  rewrite Nat2Z.inj_add, inject_Z_plus. ring.
Qed.

Lemma cc_area_mean (m : arr Z) :
  (inject_Z (nLabels (connectedComponentsWithStats m)) *
   mean (map (fun s => inject_Z (CC_STAT_AREA s)) (cc_stats (connectedComponentsWithStats m)))
   == inject_Z (Z.of_nat (nrows m * ncols m)))%Q /\ 1 <= nLabels (connectedComponentsWithStats m).
Proof.
  unfold connectedComponentsWithStats, mean. cbn [nLabels cc_stats].
  set (cs := components_of _ _).
  assert (Hs : list_sum (map (@length pixel) cs) = length (foreground m)).
  { apply components_of_length. lia. }
  split; [|lia].
  rewrite !length_map. cbn [map fold_left length].
  rewrite fold_Qplus_shift, area_sum, Hs.
  unfold stat_of at 1. cbn [CC_STAT_AREA].
  rewrite <- fg_bg_length.
  rewrite length_map, Nat2Z.inj_succ, <- Z.add_1_l.
  assert (Hn : ~ (inject_Z (1 + Z.of_nat (length cs)) == 0)%Q).
  { change 0%Q with (inject_Z 0). rewrite inject_Z_injective. lia. }
  rewrite Nat2Z.inj_add, !inject_Z_plus in *.
  field. exact Hn.
Qed.

Lemma tabulate2_size {A B C} (tm : arr A) (g : nat -> nat -> B) (f : nat -> nat -> C) :
  (nrows (tabulate (nrows (tabulate (nrows tm) (ncols tm) g)) (ncols (tabulate (nrows tm) (ncols tm) g)) f) *
   ncols (tabulate (nrows (tabulate (nrows tm) (ncols tm) g)) (ncols (tabulate (nrows tm) (ncols tm) g)) f)
   = nrows tm * ncols tm)%nat.
Proof.
  pose proof (shape_tabulate (tabulate (nrows tm) (ncols tm) g) f) as H1.
  pose proof (shape_tabulate tm g) as H2.
  unfold shape in H1, H2. rewrite H2 in H1. injection H1 as -> ->. reflexivity.
Qed.

Lemma getDetBoxes_step_chars G textmap text_score link_score labels stats tt acc k acc' :
  chars_ok (inject_Z (Z.of_nat (nrows textmap * ncols textmap))) acc ->
  getDetBoxes_step G textmap text_score link_score labels stats tt acc k = inl acc' ->
  chars_ok (inject_Z (Z.of_nat (nrows textmap * ncols textmap))) acc'.
Proof.
  unfold getDetBoxes_step, ret, raise; cbv zeta; intros Hok H.
  repeat match type of H with
  | (if ?c then _ else _) = _ => destruct c
  | (match ?m with Some _ => _ | None => _ end) = _ => destruct m
  end; try discriminate; [injection H as <-; exact Hok | injection H as <-; exact Hok |].
  match type of H with context [connectedComponentsWithStats ?m] =>
    destruct (cc_area_mean m) as [Hm H1]; rewrite tabulate2_size in Hm;
    remember (connectedComponentsWithStats m) as wc eqn:Ewc end.
  injection H as <-. unfold chars_ok in *. cbn [acc_num_characters acc_avg_character_sizes].
  apply Forall2_app; [exact Hok|]. constructor; [|constructor]. split; [exact H1 | exact Hm].
Qed.

Lemma getDetBoxes_loop_chars G textmap text_score link_score labels stats tt ks acc acc' :
  chars_ok (inject_Z (Z.of_nat (nrows textmap * ncols textmap))) acc ->
  getDetBoxes_loop G textmap text_score link_score labels stats tt ks acc = inl acc' ->
  chars_ok (inject_Z (Z.of_nat (nrows textmap * ncols textmap))) acc'.
Proof.
  revert acc; induction ks as [|k ks IH]; intros acc Hok H; simpl in H.
  - inversion H; subst; auto.
  - unfold bind in H.
    destruct (getDetBoxes_step G textmap text_score link_score labels stats tt acc k) as [a|e] eqn:E;
      [|discriminate].
    eapply IH; [eapply getDetBoxes_step_chars; eauto | exact H].
Qed.

(** X10: each num_characters entry is at least 1 and, times the matching
    avg_character_sizes entry, equals the pixel count img_h * img_w of
    textmap (the mean is taken over all labels of the segmentation map,
    background included). *)
Theorem getDetBoxes_avg_size_area G textmap linkmap text_threshold link_threshold low_text poly r :
  getDetBoxes G textmap linkmap text_threshold link_threshold low_text poly = inl r ->
  Forall2 (fun n a => 1 <= n /\ (inject_Z n * a == inject_Z (Z.of_nat (nrows textmap * ncols textmap)))%Q)
    (num_characters r) (average_character_size r).
Proof.
  unfold getDetBoxes, getDetBoxes_core, bind, ret, raise. intros H.
  destruct (is_empty textmap || is_empty linkmap); [discriminate|].
  destruct (broadcast2 _ _ _ _ _) as [comb|]; [|discriminate].
  destruct (getDetBoxes_loop _ _ _ _ _ _ _ _ _) as [acc|e] eqn:E; [|discriminate].
  injection H as <-. cbn [num_characters average_character_size c_num_characters c_avg_character_sizes].
  eapply getDetBoxes_loop_chars; [|exact E]. constructor.
Qed.

Lemma getDetBoxes_avg_size_area_witness :
  match getDetBoxes G_axis twoLines (zeros 12 20) (7 # 10) (4 # 10) (4 # 10) false with
  | inl r =>
      num_characters r = [2; 2] /\
      Forall2 (fun n a => 1 <= n /\ (inject_Z n * a == inject_Z (Z.of_nat (nrows twoLines * ncols twoLines)))%Q)
        (num_characters r) (average_character_size r)
  | inr _ => False
  end.
Proof.
  destruct (getDetBoxes G_axis twoLines (zeros 12 20) (7 # 10) (4 # 10) (4 # 10) false) as [r|e] eqn:E;
    [|vm_compute in E; discriminate].
  split; [revert E; vm_compute; intros E; inversion E; reflexivity|].
  exact (getDetBoxes_avg_size_area G_axis twoLines (zeros 12 20) (7 # 10) (4 # 10) (4 # 10) false r E).
Defined.


Lemma last_In_cons {A} (a : A) l d : In (last (a :: l) d) (a :: l).
Proof.
  revert a; induction l as [|b l IH]; intros a; [left; reflexivity|].
  change (last (a :: b :: l) d) with (last (b :: l) d). right. apply IH.
Qed.

Lemma filter_seq_first (p : nat -> bool) a n r0 t :
  filter p (seq a n) = r0 :: t -> forall x, (a <= x < r0)%nat -> p x = false.
Proof.
  revert a; induction n as [|n IH]; intros a H x Hx; [discriminate|].
  cbn [seq filter] in H. destruct (p a) eqn:Ep.
  - injection H as <- _. lia.
  - destruct (Nat.eq_dec x a) as [->|Hne]; [exact Ep|].
    apply (IH (S a) H). lia.
Qed.

Lemma filter_seq_last (p : nat -> bool) a n l :
  filter p (seq a n) = l -> l <> [] -> forall x, (last l 0 < x < a + n)%nat -> p x = false.
Proof.
  revert a l; induction n as [|n IH]; intros a l H Hl x Hx; [subst; contradiction|].
  cbn [seq filter] in H. destruct (p a) eqn:Ep.
  - destruct (filter p (seq (S a) n)) as [|b t] eqn:E.
    + subst l. cbn [last] in Hx.
      destruct (p x) eqn:Ex; [|reflexivity].
      assert (Hin : In x (filter p (seq (S a) n))) by (apply filter_In; split; [apply in_seq; lia | exact Ex]).
      rewrite E in Hin. contradiction.
    + subst l. change (last (a :: b :: t) 0%nat) with (last (b :: t) 0%nat) in Hx.
      apply (IH (S a) (b :: t) E); [discriminate | lia].
  - apply (IH (S a) l H Hl). lia.
Qed.

Lemma filter_seq_hd_last (p : nat -> bool) n r0 r1 t :
  filter p (seq 0 n) = r0 :: r1 :: t ->
  (r0 < last (r0 :: r1 :: t) 0 < n)%nat /\ p r0 = true /\ p (last (r0 :: r1 :: t) 0%nat) = true.
Proof.
  intros H.
  assert (Hin : forall x, In x (r0 :: r1 :: t) -> (x < n)%nat /\ p x = true).
  { intros x Hx. rewrite <- H in Hx. apply filter_In in Hx as [Hx Hp]. apply in_seq in Hx. split; [lia | exact Hp]. }
  assert (Hnd : NoDup (r0 :: r1 :: t)) by (rewrite <- H; apply NoDup_filter, seq_NoDup).
  change (last (r0 :: r1 :: t) 0%nat) with (last (r1 :: t) 0%nat).
  pose proof (last_In_cons r1 t 0%nat) as Hl.
  destruct (Hin r0 (or_introl eq_refl)) as [_ Hp0].
  destruct (Hin (last (r1 :: t) 0%nat) (or_intror Hl)) as [Hlt Hpl].
  split; [|split; assumption].
  split; [|exact Hlt].
  destruct (Nat.lt_trichotomy r0 (last (r1 :: t) 0%nat)) as [Hc|[Hc|Hc]]; [exact Hc| |].
  - rewrite Hc in Hnd. inversion Hnd as [|? ? Hn _]. contradiction.
  - rewrite (filter_seq_first p 0 n r0 (r1 :: t) H (last (r1 :: t) 0%nat)) in Hpl; [discriminate | lia].
Qed.

(** X14: each entry (i, sy, ey) found by the top/bottom contour scan has 0
    <= i < w and 0 <= sy < ey < h, sy and ey are the first and last
    nonzero rows of column i; max_len is -1 when no column qualifies and
    otherwise the largest ey - sy + 1 among the entries. *)
Theorem top_bottom_contours (word_label : arr Z) (w h : Z) :
  Forall (tb_entry word_label w h) (fst (top_bottom word_label w h)) /\
  ((fst (top_bottom word_label w h) = [] /\ snd (top_bottom word_label w h) = -1) \/
   (In (snd (top_bottom word_label w h)) (map tb_len (fst (top_bottom word_label w h))) /\
    Forall (fun e => tb_len e <= snd (top_bottom word_label w h)) (fst (top_bottom word_label w h)))).
Proof.
  unfold top_bottom.
  apply (fold_left_inv (fun st => Forall (tb_entry word_label w h) (fst st) /\
    ((fst st = [] /\ snd st = -1) \/
     (In (snd st) (map tb_len (fst st)) /\ Forall (fun e => tb_len e <= snd st) (fst st)))));
    [|split; [constructor | left; split; reflexivity]].
  intros st i Hi [Hok Hmax]. apply in_seq in Hi.
  destruct (filter _ (seq 0 (Z.to_nat h))) as [|r0 [|r1 t]] eqn:E; cbn [length Nat.ltb Nat.leb];
    [split; assumption | split; assumption |].
  destruct (filter_seq_hd_last _ _ _ _ _ E) as ([Hlt Hh] & Hp0 & Hpl).
  set (r1' := last (r0 :: r1 :: t) 0%nat) in *.
  cbn [hd fst snd]. split.
  - apply Forall_app; split; [exact Hok|]. constructor; [|constructor].
    unfold tb_entry. rewrite !Nat2Z.id.
    apply negb_true_iff, Z.eqb_neq in Hp0. apply negb_true_iff, Z.eqb_neq in Hpl.
    split; [lia|]. split; [lia|]. split; [lia|]. split; [lia|]. split; [exact Hp0|]. split; [exact Hpl|]. split.
    + intros r Hr. pose proof (filter_seq_first _ 0 _ r0 _ E r ltac:(lia)) as Hf.
      apply negb_false_iff, Z.eqb_eq in Hf. exact Hf.
    + intros r Hr. pose proof (filter_seq_last _ 0 _ _ E ltac:(discriminate) r ltac:(lia)) as Hf.
      apply negb_false_iff, Z.eqb_eq in Hf. exact Hf.
  - right. destruct (snd st <? Z.of_nat r1' - Z.of_nat r0 + 1) eqn:Ec.
    + apply Z.ltb_lt in Ec. split.
      * rewrite map_app. apply in_or_app. right. left. reflexivity.
      * apply Forall_app; split; [|constructor; [unfold tb_len; cbn [fst snd]; lia | constructor]].
        destruct Hmax as [[-> _] | [_ Hf]]; [constructor|].
        eapply Forall_impl; [|exact Hf]. intros e He; cbn beta in He. lia.
    + apply Z.ltb_ge in Ec. destruct Hmax as [[Hn Hs] | [Hin Hf]].
      * exfalso. rewrite Hs in Ec. lia.
      * split; [rewrite map_app; apply in_or_app; left; exact Hin|].
        apply Forall_app; split; [exact Hf | constructor; [unfold tb_len; cbn [fst snd]; lia | constructor]].
Qed.
